(** * libremidi backend drivers: the JACK input driver and the ALSA sequencer
    output driver

    A shallow embedding of
    - [include/libremidi/backends/jack/midi_in.hpp]  (class [midi_in_jack]),
    - [include/libremidi/backends/alsa_seq/midi_out.hpp] (class [midi_out_alsa]),
    followed by the properties of the connection state machine, the receive
    path (delta time stamps, SysEx reassembly, filters) and the transmit path
    (encode buffer growth, chunked encoding).

    Conventions.
    - A driver method becomes a function from the driver record to the new
      driver record together with the list of effects it produced, in program
      order: reports on the error/warning side channel and calls into the
      native subsystem.
    - Everything the native subsystem decides (return codes, the port
      registry, the clock) is an explicit argument of the call.
    - Machine integers are [Z] with the conversions written out. *)

From Stdlib Require Import ZArith List String Bool Lia DecimalString.
Import ListNotations.

Open Scope string_scope.
Open Scope list_scope.
Open Scope Z_scope.

(** ** Machine integers *)

(** Conversion to [unsigned int] (32 bits). *)
Definition to_uint (x : Z) : Z := x mod 2 ^ 32.

(** Conversion to [uint64_t] ([jack_time_t], [std::size_t]). *)
Definition to_uint64 (x : Z) : Z := x mod 2 ^ 64.

(** Conversion to [int] (32 bits, two's complement). *)
Definition to_int (x : Z) : Z := (x + 2 ^ 31) mod 2 ^ 32 - 2 ^ 31.

(** Conversion to [long] / [int64_t]. *)
Definition to_long (x : Z) : Z := (x + 2 ^ 63) mod 2 ^ 64 - 2 ^ 63.

(** Conversion to [unsigned char], the type of the two fields of
    [snd_seq_addr_t]. *)
Definition to_uchar (x : Z) : Z := x mod 256.

(** The line feed of the C string escape. *)
Definition line_feed : string := String (Ascii.ascii_of_nat 10) "".

(** [std::to_string] of an [unsigned int]. *)
Definition to_string (x : Z) : string :=
  NilZero.string_of_uint (N.to_uint (Z.to_N x)).

(** ** The error/warning side channel *)

Inductive error_kind : Type :=
| driver_error
| no_devices_found_error
| invalid_parameter_error.

(** One observable effect of a driver method: a report, or a call into the
    native subsystem ([call] is the backend's type of native calls).

    Modelled from the spec: [error_handler] ([warning] and [error<kind>]) is
    not part of the sources at hand.  Both severities report on a side
    channel and return to the method, which then runs the [return] that
    follows the report in the source. *)
Inductive effect (call : Type) : Type :=
| Warning (msg : string)
| Error (kind : error_kind) (msg : string)
| Native (c : call).

Arguments Warning {call} msg.
Arguments Error {call} kind msg.
Arguments Native {call} c.

Definition is_error {call} (e : effect call) : bool :=
  match e with Error _ _ => true | _ => false end.

Definition is_native {call} (e : effect call) : bool :=
  match e with Native _ => true | _ => false end.

(** A report of severity error with the given kind. *)
Definition is_error_of {call} (k : error_kind) (e : effect call) : bool :=
  match e with
  | Error k' _ =>
      match k, k' with
      | driver_error, driver_error => true
      | no_devices_found_error, no_devices_found_error => true
      | invalid_parameter_error, invalid_parameter_error => true
      | _, _ => false
      end
  | _ => false
  end.

(** ** MIDI status bytes used by the receive path *)

Definition SYSEX_START : Z := 0xF0.
Definition MTC_QUARTER : Z := 0xF1.
Definition SYSEX_END : Z := 0xF7.
Definition TIMING_CLOCK : Z := 0xF8.
Definition ACTIVE_SENSING : Z := 0xFE.

(** ** [libremidi::message]

    [bytes] is the byte vector.  [timestamp] is a [double] number of seconds
    in the source; the receive path only ever stores [0] or
    [(time - lastTime) * 0.000001] in it, where the difference is a 64-bit
    unsigned number of microseconds.  The model keeps that number of
    microseconds: it is zero (non-negative) exactly when the [double] is. *)
Record message : Type := mk_message {
  bytes : list Z;
  timestamp : Z
}.

(** Modelled from the spec: [message::clear()]; the class [message] is not
    part of the sources at hand.  Clearing empties the accumulated byte
    sequence and leaves the time stamp, which the receive path assigns anew
    for every fragment before it clears. *)
Definition message_clear (m : message) : message :=
  {| bytes := []; timestamp := timestamp m |}.

(** * The JACK input driver *)

Module Jack.

(** The filters of [input_configuration] and the client name. *)
Record input_configuration : Type := {
  client_name : string;
  ignore_sysex : bool;
  ignore_timing : bool;
  ignore_sensing : bool
}.

(** Calls into the JACK client library. *)
Inductive call : Type :=
| jack_client_open (name : string)
| jack_set_process_callback
| jack_activate
| jack_port_register (name : string)
| jack_connect (source destination : string)
| jack_port_unregister (name : string)
| jack_port_set_name (port : option string) (name : string).

Definition effects : Type := list (effect call).

(** The driver object.  [client] and [port] are the native handles
    ([None] is [nullptr]; a registered port is known by its short name);
    [connected_], [firstMessage], [continueSysex] and [message_] are the
    members inherited from [midi_in_api]. *)
Record midi_in_jack : Type := {
  configuration : input_configuration;
  client : option string;
  port : option string;
  connected_ : bool;
  firstMessage : bool;
  continueSysex : bool;
  message_ : message;
  lastTime : Z
}.

(** One [jack_midi_event_t].  JACK never queues an empty event, so the
    buffer is given by its leading byte and the bytes after it. *)
Record jack_midi_event_t : Type := fragment {
  buffer_head : Z;
  buffer_tail : list Z
}.

Definition buffer (ev : jack_midi_event_t) : list Z :=
  buffer_head ev :: buffer_tail ev.

(** [event.buffer[event.size - 1]] *)
Definition buffer_last (ev : jack_midi_event_t) : Z :=
  last (buffer ev) (buffer_head ev).

(** What the [switch] of [jackProcessIn] decides for one fragment: the new
    value of [continueSysex], and whether the iteration is left through
    [continue]. *)
Definition classify (cfg : input_configuration) (cont : bool)
    (ev : jack_midi_event_t) : bool * bool :=
  let b0 := buffer_head ev in
  if b0 =? SYSEX_START then
    (negb (buffer_last ev =? SYSEX_END), ignore_sysex cfg)
  else if (b0 =? MTC_QUARTER) || (b0 =? TIMING_CLOCK) then
    (cont, ignore_timing cfg)
  else if b0 =? ACTIVE_SENSING then
    (cont, ignore_sensing cfg)
  else if cont then
    (negb (buffer_last ev =? SYSEX_END), ignore_sysex cfg)
  else
    (cont, false).

(** One iteration of the [for] loop of [jackProcessIn]: the fragment [ev],
    processed when [jack_get_time()] returns [time].  The second component is
    the message handed to [on_message], if any. *)
Definition process_event (self : midi_in_jack) (time : Z)
    (ev : jack_midi_event_t) : midi_in_jack * option message :=
  let cfg := configuration self in
  (* Compute the delta time. *)
  let stamp :=
    if firstMessage self then 0 else to_uint64 (time - lastTime self) in
  let m0 := if continueSysex self then bytes (message_ self) else [] in
  let m1 :=
    if (continueSysex self || (buffer_head ev =? SYSEX_START))
       && ignore_sysex cfg
    then m0 else m0 ++ buffer ev in
  let '(cont, skip) := classify cfg (continueSysex self) ev in
  let m := {| bytes := m1; timestamp := stamp |} in
  if skip || cont then
    ({| configuration := cfg; client := client self; port := port self;
        connected_ := connected_ self; firstMessage := false;
        continueSysex := cont; message_ := m; lastTime := time |},
     None)
  else
    ({| configuration := cfg; client := client self; port := port self;
        connected_ := connected_ self; firstMessage := false;
        continueSysex := cont; message_ := message_clear m;
        lastTime := time |},
     Some m).

(** The loop over the queued events of one process cycle; each event comes
    with the clock value read while it is processed. *)
Fixpoint process_events (self : midi_in_jack)
    (events : list (Z * jack_midi_event_t)) : midi_in_jack * list message :=
  match events with
  | [] => (self, [])
  | (time, ev) :: rest =>
      let '(self1, out) := process_event self time ev in
      let '(self2, outs) := process_events self1 rest in
      (self2, match out with Some m => m :: outs | None => outs end)
  end.

(** [jackProcessIn]: nothing happens while no port is registered. *)
Definition jackProcessIn (self : midi_in_jack)
    (events : list (Z * jack_midi_event_t)) : midi_in_jack * list message :=
  match port self with
  | None => (self, [])
  | Some _ => process_events self events
  end.

(** Successive process cycles. *)
Fixpoint run_cycles (self : midi_in_jack)
    (cycles : list (list (Z * jack_midi_event_t)))
    : midi_in_jack * list message :=
  match cycles with
  | [] => (self, [])
  | events :: rest =>
      let '(self1, out1) := jackProcessIn self events in
      let '(self2, out2) := run_cycles self1 rest in
      (self2, out1 ++ out2)
  end.

(** *** The connection state machine *)

(** What the JACK server answers during one method call: whether
    [jack_client_open] and [jack_port_register] succeed, and the array
    returned by [jack_get_ports] for MIDI output ports ([None] is a null
    array). *)
Record jack_server : Type := {
  client_open_ok : bool;
  port_register_ok : bool;
  output_ports : option (list string)
}.

(** [jack_port_name(port)]: the full name of a port of this client. *)
Definition jack_port_name (self : midi_in_jack) (p : string) : string :=
  (client_name (configuration self) ++ ":" ++ p)%string.

Definition set_client (self : midi_in_jack) (c : option string)
    : midi_in_jack :=
  {| configuration := configuration self; client := c; port := port self;
     connected_ := connected_ self; firstMessage := firstMessage self;
     continueSysex := continueSysex self; message_ := message_ self;
     lastTime := lastTime self |}.

Definition set_port (self : midi_in_jack) (p : option string)
    : midi_in_jack :=
  {| configuration := configuration self; client := client self; port := p;
     connected_ := connected_ self; firstMessage := firstMessage self;
     continueSysex := continueSysex self; message_ := message_ self;
     lastTime := lastTime self |}.

Definition set_connected (self : midi_in_jack) (b : bool) : midi_in_jack :=
  {| configuration := configuration self; client := client self;
     port := port self; connected_ := b;
     firstMessage := firstMessage self;
     continueSysex := continueSysex self; message_ := message_ self;
     lastTime := lastTime self |}.

(** [connect()]: opens the JACK client unless there is one already. *)
Definition connect (srv : jack_server) (self : midi_in_jack)
    : midi_in_jack * effects :=
  match client self with
  | Some _ => (self, [])
  | None =>
      let name := client_name (configuration self) in
      if client_open_ok srv then
        (set_client self (Some name),
         [Native (jack_client_open name); Native jack_set_process_callback;
          Native jack_activate])
      else
        (self,
         [Native (jack_client_open name);
          Warning "midi_in_jack::initialize: JACK server not running?"])
  end.

(** The port registration shared by [open_port] and [open_virtual_port]:
    [if (!port) port = jack_port_register(client, portName, ...)].  The
    library hands out a port only to an existing client. *)
Definition register_port (srv : jack_server) (self : midi_in_jack)
    (portName : string) : midi_in_jack * effects :=
  match port self with
  | Some _ => (self, [])
  | None =>
      let got :=
        match client self with
        | Some _ => if port_register_ok srv then Some portName else None
        | None => None
        end in
      (set_port self got, [Native (jack_port_register portName)])
  end.

(** [jack_get_ports(client, nullptr, JACK_DEFAULT_MIDI_TYPE,
    JackPortIsOutput)] *)
Definition jack_get_ports (srv : jack_server) (self : midi_in_jack)
    : option (list string) :=
  match client self with
  | Some _ => output_ports srv
  | None => None
  end.

Definition get_port_count (srv : jack_server) (self : midi_in_jack) : Z :=
  match client self with
  | None => 0
  | Some _ =>
      match output_ports srv with
      | None => 0
      | Some ports => to_uint (to_int (Z.of_nat (List.length ports)))
      end
  end.

Section Lifecycle.

(** The two helpers of [jack/helpers.hpp] used by the driver are not part of
    the sources at hand; they are parameters.  Each returns its result and
    whatever it reports. *)
Variable check_port_name_length : string -> string -> bool * effects.
Variable helpers_get_port_name : option (list string) -> Z -> string * effects.

Definition get_port_name (srv : jack_server) (self : midi_in_jack)
    (portNumber : Z) : string * effects :=
  helpers_get_port_name (jack_get_ports srv self) portNumber.

Definition open_port (srv : jack_server) (self : midi_in_jack)
    (portNumber : Z) (portName : string) : midi_in_jack * effects :=
  let '(ok, e0) :=
    check_port_name_length (client_name (configuration self)) portName in
  if negb ok then (self, e0)
  else
    let '(self1, e1) := connect srv self in
    (* Creating new port *)
    let '(self2, e2) := register_port srv self1 portName in
    match port self2 with
    | None =>
        (self2,
         e0 ++ e1 ++ e2
         ++ [Error driver_error
               "midi_in_jack::open_port: JACK error creating port"])
    | Some p =>
        (* Connecting to the output *)
        let '(name, e3) := get_port_name srv self2 portNumber in
        (set_connected self2 true,
         e0 ++ e1 ++ e2 ++ e3
         ++ [Native (jack_connect name (jack_port_name self2 p))])
    end.

Definition open_virtual_port (srv : jack_server) (self : midi_in_jack)
    (portName : string) : midi_in_jack * effects :=
  let '(ok, e0) :=
    check_port_name_length (client_name (configuration self)) portName in
  if negb ok then (self, e0)
  else
    let '(self1, e1) := connect srv self in
    let '(self2, e2) := register_port srv self1 portName in
    match port self2 with
    | None =>
        (self2,
         e0 ++ e1 ++ e2
         ++ [Error driver_error
               "midi_in_jack::open_virtual_port: JACK error creating virtual port"])
    | Some _ => (self2, e0 ++ e1 ++ e2)
    end.

End Lifecycle.

Definition close_port (self : midi_in_jack) : midi_in_jack * effects :=
  match port self with
  | None => (self, [])
  | Some p =>
      (set_connected (set_port self None) false,
       [Native (jack_port_unregister p)])
  end.

Definition set_client_name (self : midi_in_jack) (clientName : string)
    : midi_in_jack * effects :=
  (self,
   [Warning
      "midi_in_jack::setClientName: this function is not implemented for the UNIX_JACK API!"]).

(** [jack_port_set_name(port, portName)] (or [jack_port_rename]); a
    registered port takes the new name. *)
Definition set_port_name (self : midi_in_jack) (portName : string)
    : midi_in_jack * effects :=
  (set_port self
     (match port self with Some _ => Some portName | None => None end),
   [Native (jack_port_set_name (port self) portName)]).

(** Modelled from the spec: the members that [midi_in_api]
    ([detail/midi_in.hpp], not part of the sources at hand) declares, as they
    are before the constructor body runs: not connected, first-message flag
    set, no continuation pending, empty accumulator. *)
Definition midi_in_api_new (conf : input_configuration) : midi_in_jack :=
  {| configuration := conf; client := None; port := None;
     connected_ := false; firstMessage := true; continueSysex := false;
     message_ := {| bytes := []; timestamp := 0 |}; lastTime := 0 |}.

(** The constructor: no port, no client, then [connect()]. *)
Definition midi_in_jack_new (srv : jack_server) (conf : input_configuration)
    : midi_in_jack * effects :=
  connect srv (set_client (set_port (midi_in_api_new conf) None) None).

End Jack.

(** * The ALSA sequencer output driver *)

Module Alsa.

(** Constants of [alsa/seq.h] and [alsa/seq_event.h]. *)
Definition SND_SEQ_PORT_CAP_READ : Z := 1.
Definition SND_SEQ_PORT_CAP_WRITE : Z := 2.
Definition SND_SEQ_PORT_CAP_SUBS_READ : Z := 32.
Definition SND_SEQ_PORT_CAP_SUBS_WRITE : Z := 64.
Definition SND_SEQ_PORT_TYPE_MIDI_GENERIC : Z := 2.
Definition SND_SEQ_PORT_TYPE_APPLICATION : Z := 1048576.
Definition SND_SEQ_EVENT_NONE : Z := 255.

(** [snd_seq_addr_t]: both fields are [unsigned char] in [alsa/seq.h]; what
    is stored in them goes through [to_uchar]. *)
Record snd_seq_addr_t : Type := {
  addr_client : Z;
  addr_port : Z
}.

(** One entry of the port registry. *)
Record snd_seq_port_info_t : Type := {
  info_addr : snd_seq_addr_t;
  info_name : string;
  info_capability : Z
}.

(** The event built by one iteration of the send loop: the source port set
    by [snd_seq_ev_set_source], the type set by the encoder, and the bytes of
    the message the encoder consumed for it. *)
Record snd_seq_event_t : Type := {
  ev_source : Z;
  ev_type : Z;
  ev_bytes : list Z
}.

(** Calls into the ALSA library that act on the sequencer or the encoder. *)
Inductive call : Type :=
| snd_seq_create_simple_port (name : string) (caps type : Z)
| snd_seq_port_subscribe_malloc
| snd_seq_port_subscribe_free
| snd_seq_subscribe_port (sender dest : snd_seq_addr_t)
| snd_seq_unsubscribe_port
| snd_midi_event_resize_buffer (size : Z)
| snd_seq_event_output (ev : snd_seq_event_t)
| snd_seq_drain_output.

Definition effects : Type := list (effect call).

(** The members [subscription] and [coder] point to native objects. *)
Inductive subscription_ptr : Type :=
| sub_null
| sub_alloc (sender dest : snd_seq_addr_t)
| sub_freed.

(** The MIDI event encoder; [bufsize] is the capacity it is bound to. *)
Record snd_midi_event_t : Type := {
  bufsize : Z
}.

(** The driver object: the members of [alsa_data] used here, [connected_]
    of [midi_out_api], and [bufferSize]. *)
Record midi_out_alsa : Type := {
  client_name : string;
  seq : bool;
  vport : Z;
  subscription : subscription_ptr;
  coder : option snd_midi_event_t;
  connected_ : bool;
  bufferSize : Z
}.

(** What the sequencer answers during one method call.  [encode_result buf
    count] is what [snd_midi_event_encode] returns for the bytes [buf] and
    the count [count]: its return value and the type it leaves in the event.
    [event_output_result offset ev] is what [snd_seq_event_output] returns
    for the event queued when [offset] bytes have been encoded. *)
Record snd_seq_t : Type := {
  seq_client_id : Z;
  seq_ports : list snd_seq_port_info_t;
  port_info_negative : option snd_seq_port_info_t;
  create_simple_port_result : Z;
  port_subscribe_malloc_result : Z;
  subscribe_port_result : Z;
  resize_buffer_result : Z;
  encode_result : list Z -> Z -> Z * Z;
  event_output_result : Z -> snd_seq_event_t -> Z
}.

Definition has_capability (caps : Z) (p : snd_seq_port_info_t) : bool :=
  Z.land (info_capability p) caps =? caps.

(** Modelled from the spec: [alsa_data::get_port_count(caps)] of
    [alsa_seq/helpers.hpp], which is not part of the sources at hand.  It
    counts the visible endpoints that match the requested capability (a
    count that fits the [unsigned int] the driver returns). *)
Definition alsa_data_get_port_count (s : snd_seq_t) (caps : Z) : Z :=
  Z.of_nat (List.length (filter (has_capability caps) (seq_ports s))).

(** Modelled from the spec: [alsa_seq::port_info(seq, pinfo, caps,
    portNumber)] of [alsa_seq/helpers.hpp], which is not part of the sources
    at hand.  It resolves the position [portNumber] (an [int]) in the same
    enumeration; [None] stands for the return value [0].  The spec is silent
    about negative positions, whose outcome is left to the native side. *)
Definition port_info (s : snd_seq_t) (caps : Z) (portNumber : Z)
    : option snd_seq_port_info_t :=
  if portNumber <? 0 then port_info_negative s
  else nth_error (filter (has_capability caps) (seq_ports s))
                 (Z.to_nat portNumber).

Definition WRITE_CAPS : Z :=
  Z.lor SND_SEQ_PORT_CAP_WRITE SND_SEQ_PORT_CAP_SUBS_WRITE.

Definition READ_CAPS : Z :=
  Z.lor SND_SEQ_PORT_CAP_READ SND_SEQ_PORT_CAP_SUBS_READ.

Definition get_port_count (s : snd_seq_t) : Z :=
  alsa_data_get_port_count s WRITE_CAPS.

Definition set_vport (self : midi_out_alsa) (v : Z) : midi_out_alsa :=
  {| client_name := client_name self; seq := seq self; vport := v;
     subscription := subscription self; coder := coder self;
     connected_ := connected_ self; bufferSize := bufferSize self |}.

Definition set_subscription (self : midi_out_alsa) (p : subscription_ptr)
    : midi_out_alsa :=
  {| client_name := client_name self; seq := seq self; vport := vport self;
     subscription := p; coder := coder self;
     connected_ := connected_ self; bufferSize := bufferSize self |}.

Definition set_connected (self : midi_out_alsa) (b : bool) : midi_out_alsa :=
  {| client_name := client_name self; seq := seq self; vport := vport self;
     subscription := subscription self; coder := coder self;
     connected_ := b; bufferSize := bufferSize self |}.

Definition set_coder (self : midi_out_alsa) (c : option snd_midi_event_t)
    : midi_out_alsa :=
  {| client_name := client_name self; seq := seq self; vport := vport self;
     subscription := subscription self; coder := c;
     connected_ := connected_ self; bufferSize := bufferSize self |}.

Definition set_bufferSize (self : midi_out_alsa) (n : Z) : midi_out_alsa :=
  {| client_name := client_name self; seq := seq self; vport := vport self;
     subscription := subscription self; coder := coder self;
     connected_ := connected_ self; bufferSize := n |}.

(** The creation of the local port shared by [open_port] and
    [open_virtual_port]: [if (vport < 0) vport =
    snd_seq_create_simple_port(...)]. *)
Definition create_vport (s : snd_seq_t) (self : midi_out_alsa)
    (portName : string) : midi_out_alsa * effects :=
  if vport self <? 0 then
    (set_vport self (to_int (create_simple_port_result s)),
     [Native (snd_seq_create_simple_port portName READ_CAPS
                (Z.lor SND_SEQ_PORT_TYPE_MIDI_GENERIC
                       SND_SEQ_PORT_TYPE_APPLICATION))])
  else (self, []).

Definition open_port (s : snd_seq_t) (self : midi_out_alsa)
    (portNumber : Z) (portName : string) : midi_out_alsa * effects :=
  if connected_ self then
    (self,
     [Warning "midi_out_alsa::open_port: a valid connection already exists!"])
  else
    let nSrc := get_port_count s in
    if nSrc <? 1 then
      (self,
       [Error no_devices_found_error
          "midi_out_alsa::open_port: no MIDI output sources found!"])
    else
      match port_info s WRITE_CAPS (to_int portNumber) with
      | None =>
          (self,
           [Error invalid_parameter_error
              ("midi_out_alsa::open_port: invalid 'portNumber' argument: "
               ++ to_string portNumber)%string])
      | Some pinfo =>
          let receiver :=
            {| addr_client := to_uchar (addr_client (info_addr pinfo));
               addr_port := to_uchar (addr_port (info_addr pinfo)) |} in
          let '(self1, e1) := create_vport s self portName in
          if vport self1 <? 0 then
            (self1,
             e1 ++ [Error driver_error
                      "midi_out_alsa::open_port: ALSA error creating output port."])
          else
            let sender :=
              {| addr_client := to_uchar (seq_client_id s);
                 addr_port := to_uchar (vport self1) |} in
            (* Make subscription *)
            if port_subscribe_malloc_result s <? 0 then
              (set_subscription self1 sub_null,
               e1 ++ [Native snd_seq_port_subscribe_malloc;
                      Native snd_seq_port_subscribe_free;
                      Error driver_error
                        "midi_out_alsa::open_port: error allocating port subscription."])
            else if negb (subscribe_port_result s =? 0) then
              (set_subscription self1 sub_freed,
               e1 ++ [Native snd_seq_port_subscribe_malloc;
                      Native (snd_seq_subscribe_port sender receiver);
                      Native snd_seq_port_subscribe_free;
                      Error driver_error
                        "midi_out_alsa::open_port: ALSA error making port connection."])
            else
              (set_connected
                 (set_subscription self1 (sub_alloc sender receiver)) true,
               e1 ++ [Native snd_seq_port_subscribe_malloc;
                      Native (snd_seq_subscribe_port sender receiver)])
      end.

Definition open_virtual_port (s : snd_seq_t) (self : midi_out_alsa)
    (portName : string) : midi_out_alsa * effects :=
  let '(self1, e1) := create_vport s self portName in
  if (vport self <? 0) && (vport self1 <? 0) then
    (self1,
     e1 ++ [Error driver_error
              "midi_out_alsa::open_virtual_port: ALSA error creating virtual port."])
  else (self1, e1).

Definition close_port (self : midi_out_alsa) : midi_out_alsa * effects :=
  if connected_ self then
    (set_connected (set_subscription self sub_null) false,
     [Native snd_seq_unsubscribe_port; Native snd_seq_port_subscribe_free])
  else (self, []).

(** [set_client_name(clientName)] has the single statement
    [this->set_client_name(clientName)]: a call of the method itself.  Each
    unit of fuel pays for one activation; [None] means that the activation
    has not returned within the fuel. *)
Fixpoint set_client_name (fuel : nat) (self : midi_out_alsa)
    (clientName : string) : option (midi_out_alsa * effects) :=
  match fuel with
  | O => None
  | S fuel' => set_client_name fuel' self clientName
  end.

(** [set_port_name(portName)] is written the same way:
    [this->set_port_name(portName)]. *)
Fixpoint set_port_name (fuel : nat) (self : midi_out_alsa)
    (portName : string) : option (midi_out_alsa * effects) :=
  match fuel with
  | O => None
  | S fuel' => set_port_name fuel' self portName
  end.

(** *** The transmit path *)

(** The native [snd_midi_event_resize_buffer(coder, size)]: on the return
    value [0] the encoder is bound to the new capacity, otherwise it keeps
    the buffer it had. *)
Definition resize_buffer (s : snd_seq_t) (c : option snd_midi_event_t)
    (size : Z) : option snd_midi_event_t * Z :=
  let result := resize_buffer_result s in
  if result =? 0 then
    (match c with Some _ => Some {| bufsize := size |} | None => None end, 0)
  else (c, result).

(** The [while (offset < size)] loop of [send_message].  Every iteration
    needs one unit of fuel; [None] means that the loop is still running when
    the fuel is used up. *)
Fixpoint send_loop (fuel : nat) (s : snd_seq_t) (self : midi_out_alsa)
    (message : list Z) (size offset : Z) : option effects :=
  if offset <? size then
    match fuel with
    | O => None
    | S fuel' =>
        let nBytes := to_long size in
        let rest := skipn (Z.to_nat offset) message in
        let '(result, type) :=
          encode_result s rest (to_long (to_uint64 (nBytes - offset))) in
        if result <? 0 then
          Some [Warning "midi_out_alsa::send_message: event parsing error!"]
        else if type =? SND_SEQ_EVENT_NONE then
          Some [Warning "midi_out_alsa::send_message: incomplete message!"]
        else
          let ev :=
            {| ev_source := vport self mod 256; ev_type := type;
               ev_bytes := firstn (Z.to_nat result) rest |} in
          let offset' := to_uint64 (offset + result) in
          if event_output_result s offset' ev <? 0 then
            Some [Native (snd_seq_event_output ev);
                  Warning
                    "midi_out_alsa::send_message: error sending MIDI message to port."]
          else
            match send_loop fuel' s self message size offset' with
            | Some e => Some (Native (snd_seq_event_output ev) :: e)
            | None => None
            end
    end
  else Some [Native snd_seq_drain_output].

(** [send_message(message, size)]; the message is the list of its [size]
    bytes. *)
Definition send_message (fuel : nat) (s : snd_seq_t) (self : midi_out_alsa)
    (message : list Z) : option (midi_out_alsa * effects) :=
  let size := Z.of_nat (List.length message) in
  if size >? bufferSize self then
    let self1 := set_bufferSize self (to_uint size) in
    let '(c, result) := resize_buffer s (coder self1) size in
    let self2 := set_coder self1 c in
    if negb (result =? 0) then
      Some (self2,
            [Native (snd_midi_event_resize_buffer size);
             Error driver_error
               "midi_out_alsa::send_message: ALSA error resizing MIDI event buffer."])
    else
      match send_loop fuel s self2 message size 0 with
      | Some e => Some (self2, Native (snd_midi_event_resize_buffer size) :: e)
      | None => None
      end
  else
    match send_loop fuel s self message size 0 with
    | Some e => Some (self, e)
    | None => None
    end.

(** The bytes handed to the sequencer by [snd_seq_event_output], in order. *)
Fixpoint transmitted (e : effects) : list Z :=
  match e with
  | [] => []
  | Native (snd_seq_event_output ev) :: rest => ev_bytes ev ++ transmitted rest
  | _ :: rest => transmitted rest
  end.

(** The constructor, on an object whose [alsa_data] members are still as
    declared ([self0]); [open_result] and [new_result] are the return values
    of [snd_seq_open] and [snd_midi_event_new]. *)
Definition midi_out_alsa_new (open_result new_result : Z)
    (self0 : midi_out_alsa) : midi_out_alsa * effects :=
  if open_result <? 0 then
    (self0,
     [Error driver_error
        "midi_out_alsa::initialize: error creating ALSA sequencer client object."])
  else
    let self1 :=
      {| client_name := client_name self0; seq := true; vport := -1;
         subscription := subscription self0; coder := None;
         connected_ := connected_ self0; bufferSize := 32 |} in
    if new_result <? 0 then
      (self1,
       [Error driver_error
          ("midi_out_alsa::initialize: error initializing MIDI event parser!"
           ++ line_feed ++ line_feed)%string])
    else (set_coder self1 (Some {| bufsize := 32 |}), []).

End Alsa.

(** * Sample objects *)

(** A filter configuration. *)
Definition filters (sysex timing sensing : bool) : Jack.input_configuration :=
  {| Jack.client_name := "libremidi"; Jack.ignore_sysex := sysex;
     Jack.ignore_timing := timing; Jack.ignore_sensing := sensing |}.

(** An input driver that has just opened a port: client and port exist and
    the reassembly state is still the initial one. *)
Definition listening (cfg : Jack.input_configuration) : Jack.midi_in_jack :=
  {| Jack.configuration := cfg;
     Jack.client := Some (Jack.client_name cfg);
     Jack.port := Some "in";
     Jack.connected_ := true;
     Jack.firstMessage := true;
     Jack.continueSysex := false;
     Jack.message_ := {| bytes := []; timestamp := 0 |};
     Jack.lastTime := 0 |}.

(** A name check for [check_port_name_length] that accepts every name and
    reports nothing. *)
Definition accept_names (clientName portName : string)
    : bool * Jack.effects := (true, []).

(** Modelled from the spec: [jack_helpers::get_port_name] of
    [jack/helpers.hpp], which is not part of the sources at hand.  It
    returns the display name at the given position of the enumeration; the
    spec is silent about positions outside of it, for which this lookup
    returns the empty name and reports nothing. *)
Definition name_at (ports : option (list string)) (portNumber : Z)
    : string * Jack.effects :=
  (match ports with
   | Some l => nth (Z.to_nat portNumber) l ""
   | None => ""
   end, []).

(** A JACK server with one MIDI output port. *)
Definition one_port_server : Jack.jack_server :=
  {| Jack.client_open_ok := true; Jack.port_register_ok := true;
     Jack.output_ports := Some ["system:midi_capture_1"] |}.

(** An output driver as the constructor leaves it. *)
Definition fresh_out : Alsa.midi_out_alsa :=
  {| Alsa.client_name := "libremidi"; Alsa.seq := true; Alsa.vport := -1;
     Alsa.subscription := Alsa.sub_null;
     Alsa.coder := Some {| Alsa.bufsize := 32 |};
     Alsa.connected_ := false; Alsa.bufferSize := 32 |}.

(** A sequencer on which every native call succeeds: [ports] is its
    registry, the encoder turns all the bytes it is given into one event of
    type 130 (SysEx) and the output queue takes every event. *)
Definition sequencer (ports : list Alsa.snd_seq_port_info_t)
    : Alsa.snd_seq_t :=
  {| Alsa.seq_client_id := 128;
     Alsa.seq_ports := ports;
     Alsa.port_info_negative := None;
     Alsa.create_simple_port_result := 0;
     Alsa.port_subscribe_malloc_result := 0;
     Alsa.subscribe_port_result := 0;
     Alsa.resize_buffer_result := 0;
     Alsa.encode_result := fun buf count => (count, 130);
     Alsa.event_output_result := fun offset ev => 0 |}.

(** The same sequencer when the encoder buffer cannot be reallocated
    ([-ENOMEM]). *)
Definition sequencer_out_of_memory : Alsa.snd_seq_t :=
  {| Alsa.seq_client_id := 128;
     Alsa.seq_ports := [];
     Alsa.port_info_negative := None;
     Alsa.create_simple_port_result := 0;
     Alsa.port_subscribe_malloc_result := 0;
     Alsa.subscribe_port_result := 0;
     Alsa.resize_buffer_result := -12;
     Alsa.encode_result := fun buf count => (count, 130);
     Alsa.event_output_result := fun offset ev => 0 |}.

(** A sequencer whose encoder makes one event (of type 6, note on) of at
    most three bytes at a time, and on which every other native call
    succeeds. *)
Definition chunking_sequencer : Alsa.snd_seq_t :=
  {| Alsa.seq_client_id := 128;
     Alsa.seq_ports := [];
     Alsa.port_info_negative := None;
     Alsa.create_simple_port_result := 0;
     Alsa.port_subscribe_malloc_result := 0;
     Alsa.subscribe_port_result := 0;
     Alsa.resize_buffer_result := 0;
     Alsa.encode_result :=
       fun buf count =>
         if count <=? 0 then (0, 255) else (Z.min count 3, 6);
     Alsa.event_output_result := fun offset ev => 0 |}.

(** What [send_message] does with seven bytes on that sequencer. *)
Definition three_chunks : Alsa.effects :=
  [Native (Alsa.snd_seq_event_output
             {| Alsa.ev_source := 255; Alsa.ev_type := 6;
                Alsa.ev_bytes := [1; 2; 3] |});
   Native (Alsa.snd_seq_event_output
             {| Alsa.ev_source := 255; Alsa.ev_type := 6;
                Alsa.ev_bytes := [4; 5; 6] |});
   Native (Alsa.snd_seq_event_output
             {| Alsa.ev_source := 255; Alsa.ev_type := 6;
                Alsa.ev_bytes := [7] |});
   Native Alsa.snd_seq_drain_output].

(** A writable port of another client. *)
Definition synth_port : Alsa.snd_seq_port_info_t :=
  {| Alsa.info_addr := {| Alsa.addr_client := 129; Alsa.addr_port := 0 |};
     Alsa.info_name := "synth"; Alsa.info_capability := 66 |}.

(** An output driver subscribed to [synth_port]. *)
Definition connected_out : Alsa.midi_out_alsa :=
  fst (Alsa.open_port (sequencer [synth_port]) fresh_out 0 "out").

(** A sequencer on which every native call succeeds and which gives the
    new local port the identifier 300. *)
Definition sequencer_port_300 : Alsa.snd_seq_t :=
  {| Alsa.seq_client_id := 128;
     Alsa.seq_ports := [synth_port];
     Alsa.port_info_negative := None;
     Alsa.create_simple_port_result := 300;
     Alsa.port_subscribe_malloc_result := 0;
     Alsa.subscribe_port_result := 0;
     Alsa.resize_buffer_result := 0;
     Alsa.encode_result := fun buf count => (count, 130);
     Alsa.event_output_result := fun offset ev => 0 |}.

(** The sender and the destination of the subscription that [open_port]
    makes for the local port [port_id] and the registry entry [pinfo]. *)
Definition sender_of (s : Alsa.snd_seq_t) (port_id : Z)
    : Alsa.snd_seq_addr_t :=
  {| Alsa.addr_client := to_uchar (Alsa.seq_client_id s);
     Alsa.addr_port := to_uchar port_id |}.

Definition receiver_of (pinfo : Alsa.snd_seq_port_info_t)
    : Alsa.snd_seq_addr_t :=
  {| Alsa.addr_client := to_uchar (Alsa.addr_client (Alsa.info_addr pinfo));
     Alsa.addr_port := to_uchar (Alsa.addr_port (Alsa.info_addr pinfo)) |}.

(** For every fragment of a run, in order: does it complete a message, that
    is, is a message handed to the callback when it is processed? *)
Fixpoint completes (self : Jack.midi_in_jack)
    (events : list (Z * Jack.jack_midi_event_t)) : list bool :=
  match events with
  | [] => []
  | (t, ev) :: rest =>
      match snd (Jack.process_event self t ev) with
      | Some _ => true
      | None => false
      end :: completes (fst (Jack.process_event self t ev)) rest
  end.

(** The elements of [xs] at the positions where [flags] holds. *)
Fixpoint select {A : Type} (flags : list bool) (xs : list A) : list A :=
  match flags, xs with
  | true :: flags', x :: xs' => x :: select flags' xs'
  | false :: flags', _ :: xs' => select flags' xs'
  | _, _ => []
  end.

(** No native failure during one [send_message]: the buffer can be resized,
    the encoder turns between one and [count] of the bytes it is given into
    an event, and the output queue takes every event. *)
Definition no_native_failure (s : Alsa.snd_seq_t) : Prop :=
  Alsa.resize_buffer_result s = 0
  /\ (forall buf count,
        0 < count ->
        1 <= fst (Alsa.encode_result s buf count) <= count
        /\ snd (Alsa.encode_result s buf count) <> Alsa.SND_SEQ_EVENT_NONE)
  /\ (forall offset ev, 0 <= Alsa.event_output_result s offset ev).

(** The requests a caller can make of an output driver during its lifetime,
    each with what the sequencer answers while it is served. *)
Inductive request : Type :=
| req_open_port (s : Alsa.snd_seq_t) (portNumber : Z) (portName : string)
| req_open_virtual_port (s : Alsa.snd_seq_t) (portName : string)
| req_close_port
| req_send_message (fuel : nat) (s : Alsa.snd_seq_t) (message : list Z).

Definition serve (self : Alsa.midi_out_alsa) (r : request)
    : option (Alsa.midi_out_alsa * Alsa.effects) :=
  match r with
  | req_open_port s n name => Some (Alsa.open_port s self n name)
  | req_open_virtual_port s name => Some (Alsa.open_virtual_port s self name)
  | req_close_port => Some (Alsa.close_port self)
  | req_send_message fuel s message => Alsa.send_message fuel s self message
  end.

(** The driver after a sequence of requests, if all of them return. *)
Fixpoint serve_all (self : Alsa.midi_out_alsa) (rs : list request)
    : option Alsa.midi_out_alsa :=
  match rs with
  | [] => Some self
  | r :: rest =>
      match serve self r with
      | Some (self1, _) => serve_all self1 rest
      | None => None
      end
  end.

(** The messages of a sequence of requests are shorter than [2 ^ 32]
    bytes. *)
Definition short_message (r : request) : Prop :=
  match r with
  | req_send_message _ _ message => Z.of_nat (List.length message) < 2 ^ 32
  | _ => True
  end.

(** Two driver objects agree on what decides the bytes of the messages to
    come: the filters, the continuation flag and, while a continuation is
    pending, the accumulated bytes. *)
Definition same_assembly (s1 s2 : Jack.midi_in_jack) : Prop :=
  Jack.configuration s1 = Jack.configuration s2
  /\ Jack.continueSysex s1 = Jack.continueSysex s2
  /\ (Jack.continueSysex s1 = true ->
      bytes (Jack.message_ s1) = bytes (Jack.message_ s2)).

(** ** Notions used by the further properties *)

(** A report on the side channel, as opposed to a native call. *)
Definition is_report {call : Type} (e : effect call) : bool :=
  negb (is_native e).

(** The bytes accumulated for a message whose end has not arrived yet. *)
Definition pending (self : Jack.midi_in_jack) : list Z :=
  if Jack.continueSysex self then bytes (Jack.message_ self) else [].

(** All the bytes of a list of queued events, in order. *)
Definition all_bytes (events : list (Z * Jack.jack_midi_event_t)) : list Z :=
  List.concat (map (fun te => Jack.buffer (snd te)) events).

(** The status byte puts the fragment in a class that the configuration
    filters out: timing ([0xF1], [0xF8]) or active sensing ([0xFE]). *)
Definition filtered (cfg : Jack.input_configuration)
    (ev : Jack.jack_midi_event_t) : bool :=
  let b0 := Jack.buffer_head ev in
  (((b0 =? 0xF1) || (b0 =? 0xF8)) && Jack.ignore_timing cfg)
  || ((b0 =? 0xFE) && Jack.ignore_sensing cfg).

(** The status byte is none of the timing and sensing bytes. *)
Definition plain_status (ev : Jack.jack_midi_event_t) : Prop :=
  Jack.buffer_head ev <> 0xF1 /\ Jack.buffer_head ev <> 0xF8
  /\ Jack.buffer_head ev <> 0xFE.

(** Two driver objects with the same receive state: filters, first-message
    flag, continuation flag, accumulator and last clock value. *)
Definition same_receive_state (s1 s2 : Jack.midi_in_jack) : Prop :=
  Jack.configuration s1 = Jack.configuration s2
  /\ Jack.firstMessage s1 = Jack.firstMessage s2
  /\ Jack.continueSysex s1 = Jack.continueSysex s2
  /\ Jack.message_ s1 = Jack.message_ s2
  /\ Jack.lastTime s1 = Jack.lastTime s2.

(** What can happen to an input driver after its construction: a call of one
    of its methods, or a process cycle of the JACK server. *)
Inductive jack_request : Type :=
| jreq_open_port (srv : Jack.jack_server) (portNumber : Z) (portName : string)
| jreq_open_virtual_port (srv : Jack.jack_server) (portName : string)
| jreq_close_port
| jreq_set_client_name (clientName : string)
| jreq_set_port_name (portName : string)
| jreq_process (events : list (Z * Jack.jack_midi_event_t)).

Section JackRequests.

Variable check_port_name_length : string -> string -> bool * Jack.effects.
Variable helpers_get_port_name :
  option (list string) -> Z -> string * Jack.effects.

Definition jack_serve (self : Jack.midi_in_jack) (r : jack_request)
    : Jack.midi_in_jack :=
  match r with
  | jreq_open_port srv n name =>
      fst (Jack.open_port check_port_name_length helpers_get_port_name
             srv self n name)
  | jreq_open_virtual_port srv name =>
      fst (Jack.open_virtual_port check_port_name_length srv self name)
  | jreq_close_port => fst (Jack.close_port self)
  | jreq_set_client_name name => fst (Jack.set_client_name self name)
  | jreq_set_port_name name => fst (Jack.set_port_name self name)
  | jreq_process events => fst (Jack.jackProcessIn self events)
  end.

Definition jack_serve_all (self : Jack.midi_in_jack)
    (rs : list jack_request) : Jack.midi_in_jack :=
  fold_left jack_serve rs self.

End JackRequests.

(** A request that is a method call, not a process cycle. *)
Definition is_method_call (r : jack_request) : bool :=
  match r with
  | jreq_process _ => false
  | _ => true
  end.

(** A connected input driver has a port. *)
Definition jack_connected_has_port (self : Jack.midi_in_jack) : Prop :=
  Jack.connected_ self = true -> Jack.port self <> None.

(** The driver after a sequence of requests together with everything the
    requests did, if all of them return. *)
Fixpoint serve_trace (self : Alsa.midi_out_alsa) (rs : list request)
    : option (Alsa.midi_out_alsa * Alsa.effects) :=
  match rs with
  | [] => Some (self, [])
  | r :: rest =>
      match serve self r with
      | Some (self1, e1) =>
          match serve_trace self1 rest with
          | Some (self2, e2) => Some (self2, e1 ++ e2)
          | None => None
          end
      | None => None
      end
  end.

(** The number of native calls of a trace that satisfy [p]. *)
Definition count_calls (p : Alsa.call -> bool) (e : Alsa.effects) : Z :=
  Z.of_nat
    (List.length
       (filter (fun x => match x with Native c => p c | _ => false end) e)).

Definition is_subscribe_malloc (c : Alsa.call) : bool :=
  match c with Alsa.snd_seq_port_subscribe_malloc => true | _ => false end.

Definition is_subscribe_free (c : Alsa.call) : bool :=
  match c with Alsa.snd_seq_port_subscribe_free => true | _ => false end.

Definition is_create_port (c : Alsa.call) : bool :=
  match c with Alsa.snd_seq_create_simple_port _ _ _ => true | _ => false end.

Definition is_drain (c : Alsa.call) : bool :=
  match c with Alsa.snd_seq_drain_output => true | _ => false end.

Definition is_resize (c : Alsa.call) : bool :=
  match c with Alsa.snd_midi_event_resize_buffer _ => true | _ => false end.

(** The effects the send loop can have: queueing an event, draining the
    queue, warning. *)
Definition is_loop_effect (x : effect Alsa.call) : bool :=
  match x with
  | Native (Alsa.snd_seq_event_output _) => true
  | Native Alsa.snd_seq_drain_output => true
  | Warning _ => true
  | _ => false
  end.

(** [1] for a connected driver, [0] otherwise. *)
Definition connections (self : Alsa.midi_out_alsa) : Z :=
  if Alsa.connected_ self then 1 else 0.

(** A connected output driver owns a live subscription whose sender is its
    own local port, as far as the [unsigned char] of the address holds its
    identifier. *)
Definition subscription_live (self : Alsa.midi_out_alsa) : Prop :=
  Alsa.connected_ self = true ->
  0 <= Alsa.vport self
  /\ exists sender dest,
       Alsa.subscription self = Alsa.sub_alloc sender dest
       /\ Alsa.addr_port sender = to_uchar (Alsa.vport self).

(** The recorded capacity is the capacity the encoder is bound to. *)
Definition capacity_in_sync (self : Alsa.midi_out_alsa) : Prop :=
  Alsa.coder self = Some {| Alsa.bufsize := Alsa.bufferSize self |}.

(** A request that cannot put the recorded capacity out of step: its
    message is shorter than [2 ^ 32] bytes and the native resize succeeds. *)
Definition resize_succeeds (r : request) : Prop :=
  match r with
  | req_send_message _ s message =>
      Z.of_nat (List.length message) < 2 ^ 32
      /\ Alsa.resize_buffer_result s = 0
  | _ => True
  end.

(** The encoder returns a [long], and an event it produces stands for at
    least one byte. *)
Definition encoder_in_range (s : Alsa.snd_seq_t) : Prop :=
  forall buf count, fst (Alsa.encode_result s buf count) < 2 ^ 63.

Definition encoder_progress (s : Alsa.snd_seq_t) : Prop :=
  forall buf count,
    0 <= fst (Alsa.encode_result s buf count) ->
    snd (Alsa.encode_result s buf count) <> Alsa.SND_SEQ_EVENT_NONE ->
    1 <= fst (Alsa.encode_result s buf count).

(** The delta of every fragment of a run, in order: [0] for the first
    fragment a driver ever processes, and afterwards the unsigned 64-bit
    difference to the clock value of the fragment before. *)
Fixpoint fragment_stamps (first : bool) (last : Z) (times : list Z) : list Z :=
  match times with
  | [] => []
  | t :: rest =>
      (if first then 0 else to_uint64 (t - last))
      :: fragment_stamps false t rest
  end.

(** [subseq l1 l2]: [l1] is [l2] with some elements left out. *)
Inductive subseq {A : Type} : list A -> list A -> Prop :=
| subseq_nil : subseq [] []
| subseq_skip x l1 l2 : subseq l1 l2 -> subseq l1 (x :: l2)
| subseq_take x l1 l2 : subseq l1 l2 -> subseq (x :: l1) (x :: l2).

(** * The receive path *)

Lemma subseq_nil_l {A : Type} (l : list A) : subseq [] l.
Proof. induction l; constructor; assumption. Qed.

Lemma to_uint64_nonneg (x : Z) : 0 <= to_uint64 x.
Proof. unfold to_uint64. apply Z.mod_pos_bound. reflexivity. Qed.

(** [jackProcessIn] never touches the port, so successive cycles process the
    concatenation of their events. *)
Lemma process_event_port self t ev :
  Jack.port (fst (Jack.process_event self t ev)) = Jack.port self.
Proof.
  unfold Jack.process_event.
  destruct (Jack.classify _ _ _) as [cont skip].
  destruct (skip || cont); reflexivity.
Qed.

Lemma process_events_port self events :
  Jack.port (fst (Jack.process_events self events)) = Jack.port self.
Proof.
  revert self. induction events as [|[t ev] rest IH]; intros self; simpl.
  - reflexivity.
  - destruct (Jack.process_event self t ev) as [self1 out] eqn:E1.
    destruct (Jack.process_events self1 rest) as [self2 outs] eqn:E2.
    simpl. change self2 with (fst (self2, outs)). rewrite <- E2, IH.
    change self1 with (fst (self1, out)). rewrite <- E1.
    apply process_event_port.
Qed.

Lemma process_events_app self ev1 ev2 :
  Jack.process_events self (ev1 ++ ev2) =
  let '(self1, out1) := Jack.process_events self ev1 in
  let '(self2, out2) := Jack.process_events self1 ev2 in
  (self2, out1 ++ out2).
Proof.
  revert self. induction ev1 as [|[t ev] rest IH]; intros self; simpl.
  - destruct (Jack.process_events self ev2); reflexivity.
  - destruct (Jack.process_event self t ev) as [self1 out].
    rewrite IH.
    destruct (Jack.process_events self1 rest) as [self2 outs].
    destruct (Jack.process_events self2 ev2) as [self3 outs3].
    destruct out; reflexivity.
Qed.

Lemma run_cycles_concat self cycles :
  Jack.port self <> None ->
  Jack.run_cycles self cycles = Jack.process_events self (List.concat cycles).
Proof.
  revert self. induction cycles as [|events rest IH]; intros self Hp; simpl.
  - reflexivity.
  - rewrite process_events_app. unfold Jack.jackProcessIn.
    destruct (Jack.port self) eqn:Ep; [|congruence].
    destruct (Jack.process_events self events) as [self1 out1] eqn:E1.
    rewrite IH; [reflexivity|].
    change self1 with (fst (self1, out1)). rewrite <- E1.
    rewrite process_events_port. congruence.
Qed.

Lemma run_cycles_no_port self cycles :
  Jack.port self = None -> Jack.run_cycles self cycles = (self, []).
Proof.
  intros Hp. induction cycles as [|events rest IH]; simpl.
  - reflexivity.
  - unfold Jack.jackProcessIn. rewrite Hp, IH. reflexivity.
Qed.

(** Unfolds the loop iterations in the goal. *)
Ltac step_fragment :=
  unfold Jack.process_event, Jack.classify, Jack.buffer_last, Jack.buffer,
    SYSEX_START, SYSEX_END, MTC_QUARTER, TIMING_CLOCK, ACTIVE_SENSING in *;
  cbn [Jack.process_events Jack.buffer_head Jack.buffer_tail
       Jack.configuration Jack.ignore_sysex Jack.ignore_timing
       Jack.ignore_sensing
       Jack.continueSysex Jack.message_ Jack.firstMessage Jack.lastTime
       Jack.port Jack.client Jack.connected_ last bytes timestamp
       message_clear orb andb negb fst snd map app Z.eqb Pos.eqb] in *.

(** Replaces a test [x =? v] by [false] when [x <> v] is at hand. *)
Ltac refute_byte x v :=
  replace (Z.eqb x v) with false in *
    by (symmetry; apply Z.eqb_neq; assumption).

(** Opens a driver record so that its fields compute. *)
Ltac open_driver self :=
  destruct self as [[? ? ? ?] ? ? ? ? ? ? ?]; simpl in *; subst.

(** The two fragments of a split SysEx message, [[0xF0, a, b]] and
    [[c, d, 0xF7]], with SysEx let through. *)
Lemma two_fragments_kept self a b c d t1 t2 :
  Jack.continueSysex self = false ->
  Jack.ignore_sysex (Jack.configuration self) = false ->
  b <> SYSEX_END -> c <> MTC_QUARTER -> c <> TIMING_CLOCK ->
  c <> ACTIVE_SENSING ->
  let r := Jack.process_events self
             [(t1, Jack.fragment 0xF0 [a; b]);
              (t2, Jack.fragment c [d; 0xF7])] in
  map bytes (snd r) = [[0xF0; a; b; c; d; 0xF7]]
  /\ Jack.continueSysex (fst r) = false.
Proof.
  intros Hc Hi Hb H1 H8 HE. open_driver self. step_fragment.
  refute_byte b 247. step_fragment.
  refute_byte c 241. refute_byte c 248. refute_byte c 254.
  destruct (c =? 240); cbn; split; reflexivity.
Qed.

(** The same two fragments with SysEx ignored. *)
Lemma two_fragments_dropped self a b c d t1 t2 :
  Jack.ignore_sysex (Jack.configuration self) = true ->
  b <> SYSEX_END ->
  snd (Jack.process_events self
         [(t1, Jack.fragment 0xF0 [a; b]);
          (t2, Jack.fragment c [d; 0xF7])]) = [].
Proof.
  intros Hi Hb. open_driver self. step_fragment.
  refute_byte b 247. step_fragment.
  destruct (c =? 240); [reflexivity|].
  destruct ((c =? 241) || (c =? 248)).
  - rewrite orb_true_r. reflexivity.
  - destruct (c =? 254).
    + rewrite orb_true_r. reflexivity.
    + reflexivity.
Qed.

(** ** SysEx reassembly across two native events (C6, C7) *)

(** C6, as amended.  Two native events [[0xF0, a, b]] and [[c, d, 0xF7]]
    reach an input driver that has a port, has no continuation pending and
    lets SysEx through, in one process cycle or in two.  If [b] is not the
    SysEx terminator and [c] is none of [0xF1], [0xF8], [0xFE] (true of all
    data bytes), exactly one message is delivered, its bytes are
    [[0xF0, a, b, c, d, 0xF7]], and no continuation is pending afterwards. *)
Theorem sysex_two_events_reassembled self a b c d t1 t2 cycles :
  Jack.port self <> None ->
  Jack.continueSysex self = false ->
  Jack.ignore_sysex (Jack.configuration self) = false ->
  b <> 0xF7 -> c <> 0xF1 -> c <> 0xF8 -> c <> 0xFE ->
  cycles = [[(t1, Jack.fragment 0xF0 [a; b]);
             (t2, Jack.fragment c [d; 0xF7])]]
  \/ cycles = [[(t1, Jack.fragment 0xF0 [a; b])];
               [(t2, Jack.fragment c [d; 0xF7])]] ->
  map bytes (snd (Jack.run_cycles self cycles)) = [[0xF0; a; b; c; d; 0xF7]]
  /\ Jack.continueSysex (fst (Jack.run_cycles self cycles)) = false.
Proof.
  intros Hp Hc Hi Hb H1 H8 HE Hcy.
  rewrite run_cycles_concat by assumption.
  destruct Hcy as [-> | ->]; cbn [List.concat app];
    apply two_fragments_kept; assumption.
Qed.

Lemma sysex_two_events_reassembled_witness :
  map bytes
    (snd (Jack.run_cycles (listening (filters false false false))
            [[(100, Jack.fragment 0xF0 [1; 2])];
             [(250, Jack.fragment 3 [4; 0xF7])]]))
  = [[0xF0; 1; 2; 3; 4; 0xF7]]
  /\ Jack.continueSysex
       (fst (Jack.run_cycles (listening (filters false false false))
               [[(100, Jack.fragment 0xF0 [1; 2])];
                [(250, Jack.fragment 3 [4; 0xF7])]])) = false.
Proof.
  apply (sysex_two_events_reassembled
           (listening (filters false false false)) 1 2 3 4 100 250).
  - discriminate.
  - reflexivity.
  - reflexivity.
  - lia.
  - lia.
  - lia.
  - lia.
  - right. reflexivity.
Defined.

(** C6 as stated fails when [b] is itself the terminator [0xF7]: the first
    event is then a complete message, and two messages are delivered. *)
Lemma sysex_two_events_first_terminated :
  map bytes
    (snd (Jack.run_cycles (listening (filters false false false))
            [[(0, Jack.fragment 0xF0 [0; 0xF7]);
              (0, Jack.fragment 0 [0; 0xF7])]]))
  = [[0xF0; 0; 0xF7]; [0; 0; 0xF7]]
  /\ map bytes
       (snd (Jack.run_cycles (listening (filters false false false))
               [[(0, Jack.fragment 0xF0 [0; 0xF7]);
                 (0, Jack.fragment 0 [0; 0xF7])]]))
     <> [[0xF0; 0; 0xF7; 0; 0; 0xF7]].
Proof. split; [reflexivity | discriminate]. Qed.

(** C7, as amended.  With ignore-sysex enabled and [b] not the SysEx
    terminator, the two events [[0xF0, a, b]] and [[c, d, 0xF7]] deliver no
    message, whatever the state of the driver. *)
Theorem sysex_two_events_ignored self a b c d t1 t2 cycles :
  Jack.ignore_sysex (Jack.configuration self) = true ->
  b <> 0xF7 ->
  cycles = [[(t1, Jack.fragment 0xF0 [a; b]);
             (t2, Jack.fragment c [d; 0xF7])]]
  \/ cycles = [[(t1, Jack.fragment 0xF0 [a; b])];
               [(t2, Jack.fragment c [d; 0xF7])]] ->
  snd (Jack.run_cycles self cycles) = [].
Proof.
  intros Hi Hb Hcy.
  destruct (Jack.port self) eqn:Hp.
  - rewrite run_cycles_concat by congruence.
    destruct Hcy as [-> | ->]; cbn [List.concat app];
      apply two_fragments_dropped; assumption.
  - rewrite run_cycles_no_port by assumption. reflexivity.
Qed.

Lemma sysex_two_events_ignored_witness :
  snd (Jack.run_cycles (listening (filters true false false))
         [[(100, Jack.fragment 0xF0 [1; 2]);
           (250, Jack.fragment 3 [4; 0xF7])]]) = [].
Proof.
  apply (sysex_two_events_ignored
           (listening (filters true false false)) 1 2 3 4 100 250).
  - reflexivity.
  - lia.
  - left. reflexivity.
Defined.

(** C7 as stated fails when [b] is the terminator [0xF7]: the second event
    then starts a message of its own, which is delivered. *)
Lemma sysex_ignored_second_event_delivered :
  map bytes
    (snd (Jack.run_cycles (listening (filters true false false))
            [[(0, Jack.fragment 0xF0 [0; 0xF7]);
              (0, Jack.fragment 0x90 [0; 0xF7])]]))
  = [[0x90; 0; 0xF7]]
  /\ snd (Jack.run_cycles (listening (filters true false false))
            [[(0, Jack.fragment 0xF0 [0; 0xF7]);
              (0, Jack.fragment 0x90 [0; 0xF7])]])
     <> [].
Proof. split; [reflexivity | discriminate]. Qed.

(** ** Delta time stamps (C8) *)

Lemma process_event_stamp self t ev m :
  snd (Jack.process_event self t ev) = Some m ->
  timestamp m =
  if Jack.firstMessage self then 0 else to_uint64 (t - Jack.lastTime self).
Proof.
  unfold Jack.process_event.
  destruct (Jack.classify _ _ _) as [cont skip].
  destruct (skip || cont); simpl; intros H; inversion H; reflexivity.
Qed.

Lemma process_event_clock self t ev :
  Jack.firstMessage (fst (Jack.process_event self t ev)) = false
  /\ Jack.lastTime (fst (Jack.process_event self t ev)) = t.
Proof.
  unfold Jack.process_event.
  destruct (Jack.classify _ _ _) as [cont skip].
  destruct (skip || cont); split; reflexivity.
Qed.

Lemma process_events_stamps self events :
  subseq (map timestamp (snd (Jack.process_events self events)))
         (fragment_stamps (Jack.firstMessage self) (Jack.lastTime self)
            (map fst events)).
Proof.
  revert self. induction events as [|[t ev] rest IH]; intros self.
  - constructor.
  - cbn [Jack.process_events map fst fragment_stamps].
    destruct (Jack.process_event self t ev) as [self1 out] eqn:E1.
    destruct (process_event_clock self t ev) as [Hf Hl].
    rewrite E1 in Hf, Hl. cbn [fst] in Hf, Hl.
    specialize (IH self1). rewrite Hf, Hl in IH.
    destruct (Jack.process_events self1 rest) as [self2 outs].
    cbn [snd] in *.
    destruct out as [m|].
    + cbn [map].
      rewrite (process_event_stamp self t ev m) by (rewrite E1; reflexivity).
      apply subseq_take. exact IH.
    + apply subseq_skip. exact IH.
Qed.

Lemma fragment_stamps_nonneg first last times :
  Forall (fun x => 0 <= x) (fragment_stamps first last times).
Proof.
  revert first last. induction times as [|t rest IH]; intros first last.
  - constructor.
  - cbn [fragment_stamps]. constructor.
    + destruct first; [lia | apply to_uint64_nonneg].
    + apply IH.
Qed.

Lemma subseq_Forall {A : Type} (P : A -> Prop) (l1 l2 : list A) :
  subseq l1 l2 -> Forall P l2 -> Forall P l1.
Proof.
  induction 1; intros HF.
  - constructor.
  - inversion HF; subst. auto.
  - inversion HF; subst. constructor; auto.
Qed.

Lemma process_events_stamps_selected events :
  forall self,
    map timestamp (snd (Jack.process_events self events))
    = select (completes self events)
        (fragment_stamps (Jack.firstMessage self) (Jack.lastTime self)
           (map fst events)).
Proof.
  induction events as [|[t ev] rest IH]; intros self.
  - reflexivity.
  - cbn [Jack.process_events map fst fragment_stamps completes].
    pose proof (process_event_stamp self t ev) as Hstamp.
    destruct (process_event_clock self t ev) as [Hf Hl].
    destruct (Jack.process_event self t ev) as [self1 out].
    cbn [fst snd] in *.
    specialize (IH self1). rewrite Hf, Hl in IH.
    destruct (Jack.process_events self1 rest) as [self2 outs].
    cbn [snd] in *.
    destruct out as [m|]; cbn [select map].
    + rewrite (Hstamp m eq_refl), IH. reflexivity.
    + exact IH.
Qed.

(** C8, as amended.  The delta is computed per fragment, not per delivered
    message: a delivered message carries the delta of the fragment that
    completed it, which is [0] for the first fragment the driver ever
    processes and otherwise the unsigned 64-bit difference (in microseconds)
    to the clock value of the fragment before.  So the time stamps
    delivered are exactly the deltas of the completing fragments, in order;
    every delivered time stamp is non-negative; and a message completed by
    the very first fragment is the first one delivered and carries [0]. *)
Theorem delivered_stamps_are_fragment_deltas self cycles :
  let out := snd (Jack.run_cycles self cycles) in
  (Jack.port self <> None ->
   map timestamp out
   = select (completes self (List.concat cycles))
       (fragment_stamps (Jack.firstMessage self) (Jack.lastTime self)
          (map fst (List.concat cycles))))
  /\ subseq (map timestamp out)
       (fragment_stamps (Jack.firstMessage self) (Jack.lastTime self)
          (map fst (List.concat cycles)))
  /\ Forall (fun m => 0 <= timestamp m) out
  /\ (forall t ev rest m,
         Jack.port self <> None ->
         Jack.firstMessage self = true ->
         List.concat cycles = (t, ev) :: rest ->
         snd (Jack.process_event self t ev) = Some m ->
         timestamp m = 0 /\ exists outs, out = m :: outs).
Proof.
  intros out.
  assert (Hsub : subseq (map timestamp out)
            (fragment_stamps (Jack.firstMessage self) (Jack.lastTime self)
               (map fst (List.concat cycles)))).
  { subst out. destruct (Jack.port self) eqn:Hp.
    - rewrite run_cycles_concat by congruence. apply process_events_stamps.
    - rewrite run_cycles_no_port by assumption. apply subseq_nil_l. }
  split.
  { intros Hp. subst out. rewrite run_cycles_concat by assumption.
    apply process_events_stamps_selected. }
  split; [exact Hsub|]. split.
  - apply Forall_map with (f := timestamp) (P := fun x => 0 <= x).
    eapply subseq_Forall; [exact Hsub | apply fragment_stamps_nonneg].
  - intros t ev rest m Hp Hf Hc Hm. split.
    + rewrite (process_event_stamp self t ev m Hm), Hf. reflexivity.
    + subst out. rewrite run_cycles_concat by assumption. rewrite Hc.
      cbn [Jack.process_events].
      destruct (Jack.process_event self t ev) as [self1 o].
      cbn [snd] in Hm. subst o.
      destruct (Jack.process_events self1 rest) as [self2 outs].
      exists outs. reflexivity.
Qed.

Lemma delivered_stamps_are_fragment_deltas_witness :
  map timestamp
    (snd (Jack.run_cycles (listening (filters false true false))
            [[(0, Jack.fragment 0x90 [60; 100]); (10, Jack.fragment 0xF8 [])];
             [(30, Jack.fragment 0x80 [60; 0])]]))
  = [0; 20].
Proof.
  apply (proj1 (delivered_stamps_are_fragment_deltas
                  (listening (filters false true false))
                  [[(0, Jack.fragment 0x90 [60; 100]);
                    (10, Jack.fragment 0xF8 [])];
                   [(30, Jack.fragment 0x80 [60; 0])]])).
  discriminate.
Defined.

(** C8 as stated fails when the first fragment completes no message (here a
    timing clock that is filtered out): the first message delivered carries
    the delta to that fragment, 1000 microseconds, not [0]. *)
Lemma first_delivered_stamp_not_zero :
  exists m,
    hd_error
      (snd (Jack.run_cycles (listening (filters false true false))
              [[(5, Jack.fragment 0xF8 []);
                (1005, Jack.fragment 0x90 [60; 100])]])) = Some m
    /\ bytes m = [0x90; 60; 100]
    /\ timestamp m = 1000
    /\ timestamp m <> 0.
Proof.
  exists {| bytes := [0x90; 60; 100]; timestamp := 1000 |}.
  repeat split. discriminate.
Qed.

(** ** Timing fragments and a pending SysEx message (C4) *)

(** A filtered [0xF1] fragment completes no message and leaves the
    continuation flag as it was. *)
Lemma timing_fragment_keeps_flag self t ev :
  Jack.ignore_timing (Jack.configuration self) = true ->
  Jack.buffer_head ev = 0xF1 ->
  Jack.continueSysex (fst (Jack.process_event self t ev))
  = Jack.continueSysex self
  /\ snd (Jack.process_event self t ev) = None.
Proof.
  intros Hi Hb. destruct ev as [b0 tl]. open_driver self. step_fragment.
  split; reflexivity.
Qed.

(** The bytes delivered depend on the driver only through the filters, the
    continuation flag and the bytes accumulated for a pending SysEx. *)
Lemma process_event_same_assembly s1 s2 t1 t2 ev :
  same_assembly s1 s2 ->
  option_map bytes (snd (Jack.process_event s1 t1 ev))
  = option_map bytes (snd (Jack.process_event s2 t2 ev))
  /\ same_assembly (fst (Jack.process_event s1 t1 ev))
                   (fst (Jack.process_event s2 t2 ev)).
Proof.
  intros (Hc & Hk & Hb). unfold Jack.process_event. rewrite Hc, Hk.
  assert (Hm : (if Jack.continueSysex s2 then bytes (Jack.message_ s1)
                else [])
               = (if Jack.continueSysex s2 then bytes (Jack.message_ s2)
                  else [])).
  { destruct (Jack.continueSysex s2); [apply Hb; assumption | reflexivity]. }
  rewrite Hm.
  destruct (Jack.classify _ _ _) as [cont skip].
  destruct (skip || cont); cbn [fst snd option_map bytes];
    (split; [reflexivity|]); repeat split.
Qed.

Lemma process_events_same_assembly events :
  forall s1 s2,
    same_assembly s1 s2 ->
    map bytes (snd (Jack.process_events s1 events))
    = map bytes (snd (Jack.process_events s2 events)).
Proof.
  induction events as [|[t ev] rest IH]; intros s1 s2 Hs.
  - reflexivity.
  - cbn [Jack.process_events].
    destruct (process_event_same_assembly s1 s2 t t ev Hs) as [Ho Hn].
    destruct (Jack.process_event s1 t ev) as [s1' o1].
    destruct (Jack.process_event s2 t ev) as [s2' o2].
    cbn [fst snd] in Ho, Hn. specialize (IH s1' s2' Hn).
    destruct (Jack.process_events s1' rest) as [s1'' outs1].
    destruct (Jack.process_events s2' rest) as [s2'' outs2].
    cbn [snd] in *.
    destruct o1, o2; cbn [option_map] in Ho; try discriminate;
      cbn [map]; congruence.
Qed.

(** While no SysEx message is pending, a filtered [0xF1] fragment adds
    nothing to what is delivered: the run with it delivers the bytes of the
    run without it. *)
Lemma timing_fragment_outside_sysex self t ev rest :
  Jack.ignore_timing (Jack.configuration self) = true ->
  Jack.buffer_head ev = 0xF1 ->
  Jack.continueSysex self = false ->
  map bytes (snd (Jack.process_events self ((t, ev) :: rest)))
  = map bytes (snd (Jack.process_events self rest)).
Proof.
  intros Hi Hb Hc. cbn [Jack.process_events].
  destruct (timing_fragment_keeps_flag self t ev Hi Hb) as [Hk Hn].
  assert (Hs : same_assembly (fst (Jack.process_event self t ev)) self).
  { split; [|split].
    - unfold Jack.process_event.
      destruct (Jack.classify _ _ _) as [cont skip].
      destruct (skip || cont); reflexivity.
    - exact Hk.
    - rewrite Hk, Hc. discriminate. }
  destruct (Jack.process_event self t ev) as [self1 o].
  cbn [fst snd] in *. subst o.
  pose proof (process_events_same_assembly rest self1 self Hs) as H.
  destruct (Jack.process_events self1 rest) as [self2 outs].
  exact H.
Qed.

(** C4: the code against the claim.  Timing is ignored and SysEx is let
    through; a [0xF1] fragment arrives between the two fragments of a SysEx
    message.  The bytes of the timing fragment, [0xF1] and [5], are part of
    the SysEx message that is delivered. *)
Theorem timing_fragment_joins_pending_sysex :
  map bytes
    (snd (Jack.run_cycles (listening (filters false true false))
            [[(0, Jack.fragment 0xF0 [1]);
              (10, Jack.fragment 0xF1 [5]);
              (20, Jack.fragment 2 [0xF7])]]))
  = [[0xF0; 1; 0xF1; 5; 2; 0xF7]].
Proof. reflexivity. Qed.

(** * The connection state machine *)

(** The sample drivers are states the code reaches. *)
Lemma listening_reached cfg :
  fst (Jack.open_port accept_names name_at one_port_server
         (fst (Jack.midi_in_jack_new one_port_server cfg)) 0 "in")
  = listening cfg.
Proof. reflexivity. Qed.

Lemma fresh_out_constructed :
  Alsa.midi_out_alsa_new 0 0
    {| Alsa.client_name := "libremidi"; Alsa.seq := false; Alsa.vport := -1;
       Alsa.subscription := Alsa.sub_null; Alsa.coder := None;
       Alsa.connected_ := false; Alsa.bufferSize := 0 |}
  = (fresh_out, []).
Proof. reflexivity. Qed.

(** ** [open_port] on a connected driver (C1) *)

(** The sequencer driver keeps its connection and only warns. *)
Lemma alsa_open_port_connected s self portNumber portName :
  Alsa.connected_ self = true ->
  Alsa.open_port s self portNumber portName
  = (self,
     [Warning "midi_out_alsa::open_port: a valid connection already exists!"]).
Proof. intros Hc. unfold Alsa.open_port. rewrite Hc. reflexivity. Qed.

(** For instance on the sample driver subscribed to [synth_port]. *)
Lemma alsa_open_port_connected_example :
  Alsa.connected_ connected_out = true
  /\ Alsa.open_port (sequencer [synth_port]) connected_out 0 "out"
     = (connected_out,
        [Warning
           "midi_out_alsa::open_port: a valid connection already exists!"]).
Proof. split; reflexivity. Qed.

(** C1: the code against the claim.  The JACK driver has no such guard.
    With a client, a port and a connection in place, [open_port] reports
    nothing of its own and ends with another [jack_connect]; only the two
    helpers may add reports. *)
Theorem jack_open_port_connected_binds_again
    (check : string -> string -> bool * Jack.effects)
    (lookup : option (list string) -> Z -> string * Jack.effects)
    srv self portNumber portName c p :
  Jack.connected_ self = true ->
  Jack.client self = Some c ->
  Jack.port self = Some p ->
  fst (check (Jack.client_name (Jack.configuration self)) portName) = true ->
  Jack.open_port check lookup srv self portNumber portName
  = (self,
     snd (check (Jack.client_name (Jack.configuration self)) portName)
     ++ snd (lookup (Jack.output_ports srv) portNumber)
     ++ [Native (Jack.jack_connect
                   (fst (lookup (Jack.output_ports srv) portNumber))
                   (Jack.jack_port_name self p))]).
Proof.
  intros Hco Hcl Hp Hok.
  unfold Jack.open_port, Jack.get_port_name, Jack.jack_get_ports,
    Jack.connect, Jack.register_port.
  destruct (check _ portName) as [ok e0]. cbn [fst snd] in *. subst ok.
  cbn [negb]. rewrite Hcl, Hp. rewrite Hp, Hcl.
  destruct (lookup _ portNumber) as [name e3]. cbn [fst snd app].
  f_equal. destruct self; simpl in *; subst; reflexivity.
Qed.

Lemma jack_open_port_connected_binds_again_witness :
  Jack.open_port accept_names name_at one_port_server
    (listening (filters false false false)) 0 "in"
  = (listening (filters false false false),
     [Native (Jack.jack_connect "system:midi_capture_1" "libremidi:in")]).
Proof.
  apply (jack_open_port_connected_binds_again accept_names name_at
           one_port_server (listening (filters false false false)) 0 "in"
           "libremidi" "in");
    reflexivity.
Defined.

(** ** [open_port] with a position outside the registry (C2) *)

Lemma to_int_small (x : Z) : 0 <= x < 2 ^ 31 -> to_int x = x.
Proof.
  intros H. unfold to_int.
  rewrite Z.mod_small; lia.
Qed.

(** C2, as amended.  For the sequencer driver, not connected, and a position
    that is at least [get_port_count()] and fits in an [int]: [open_port]
    makes one report and changes nothing in the driver.  The report is of
    kind no-devices-found when the registry is empty and of kind
    invalid-parameter otherwise. *)
Theorem alsa_open_port_out_of_range s self portNumber portName :
  Alsa.connected_ self = false ->
  Alsa.get_port_count s <= portNumber ->
  portNumber < 2 ^ 31 ->
  exists e,
    Alsa.open_port s self portNumber portName = (self, [e])
    /\ is_error_of
         (if Alsa.get_port_count s =? 0 then no_devices_found_error
          else invalid_parameter_error) e = true.
Proof.
  intros Hc Hge Hlt. unfold Alsa.open_port. rewrite Hc.
  assert (Hn : 0 <= Alsa.get_port_count s).
  { unfold Alsa.get_port_count, Alsa.alsa_data_get_port_count. lia. }
  destruct (Alsa.get_port_count s <? 1) eqn:E1.
  - apply Z.ltb_lt in E1.
    replace (Alsa.get_port_count s =? 0) with true
      by (symmetry; apply Z.eqb_eq; lia).
    eexists. split; reflexivity.
  - apply Z.ltb_ge in E1.
    replace (Alsa.get_port_count s =? 0) with false
      by (symmetry; apply Z.eqb_neq; lia).
    rewrite to_int_small by lia.
    unfold Alsa.port_info.
    replace (portNumber <? 0) with false by (symmetry; apply Z.ltb_ge; lia).
    assert (Hnone : nth_error
              (filter (Alsa.has_capability Alsa.WRITE_CAPS) (Alsa.seq_ports s))
              (Z.to_nat portNumber) = None).
    { apply nth_error_None.
      unfold Alsa.get_port_count, Alsa.alsa_data_get_port_count in Hge.
      lia. }
    rewrite Hnone. eexists. split; reflexivity.
Qed.

Lemma alsa_open_port_out_of_range_witness :
  exists e,
    Alsa.open_port (sequencer [synth_port]) fresh_out 1 "out"
    = (fresh_out, [e])
    /\ is_error_of invalid_parameter_error e = true.
Proof.
  apply (alsa_open_port_out_of_range (sequencer [synth_port]) fresh_out 1
           "out").
  - reflexivity.
  - vm_compute. discriminate.
  - lia.
Defined.

(** C2 as stated fails on an empty registry: position [0] is not below the
    count [0], and the sequencer driver reports no-devices-found, not
    invalid-parameter. *)
Lemma alsa_open_port_empty_registry :
  Alsa.get_port_count (sequencer []) <= 0
  /\ exists e,
       Alsa.open_port (sequencer []) fresh_out 0 "out" = (fresh_out, [e])
       /\ is_error_of no_devices_found_error e = true
       /\ is_error_of invalid_parameter_error e = false.
Proof.
  split; [vm_compute; discriminate|].
  eexists. repeat split.
Qed.

(** The JACK driver, asked for position 7 of a registry of one port by
    helpers that return, ends up connected. *)
Lemma jack_open_port_position_7 :
  Jack.get_port_count one_port_server
    (fst (Jack.midi_in_jack_new one_port_server (filters false false false)))
  <= 7
  /\ Jack.connected_
       (fst (Jack.midi_in_jack_new one_port_server
               (filters false false false))) = false
  /\ Jack.connected_
       (fst (Jack.open_port accept_names name_at one_port_server
               (fst (Jack.midi_in_jack_new one_port_server
                       (filters false false false))) 7 "in")) = true.
Proof. repeat split. vm_compute. discriminate. Qed.

(** Whatever the position and whatever the helpers report, the JACK driver
    is connected after [open_port] once its port exists. *)
Lemma jack_open_port_connects
    (check : string -> string -> bool * Jack.effects)
    (lookup : option (list string) -> Z -> string * Jack.effects)
    srv self portNumber portName :
  Jack.port self <> None ->
  fst (check (Jack.client_name (Jack.configuration self)) portName) = true ->
  Jack.connected_
    (fst (Jack.open_port check lookup srv self portNumber portName)) = true.
Proof.
  intros Hp Hok. unfold Jack.open_port, Jack.get_port_name.
  destruct (check _ portName) as [ok e0]. cbn [fst] in Hok. subst ok.
  cbn [negb].
  destruct (Jack.connect srv self) as [self1 e1] eqn:E1.
  assert (Hp1 : Jack.port self1 = Jack.port self).
  { unfold Jack.connect in E1.
    destruct (Jack.client self); [inversion E1; reflexivity|].
    destruct (Jack.client_open_ok srv); inversion E1; reflexivity. }
  unfold Jack.register_port. rewrite Hp1.
  destruct (Jack.port self) as [p|] eqn:Ep; [|congruence].
  rewrite Hp1.
  destruct (lookup _ portNumber) as [name e3]. reflexivity.
Qed.

(** ** Renaming (C3) *)

(** The JACK driver answers both requests at once; the only report is the
    warning of [set_client_name]. *)
Lemma jack_rename_returns self name :
  Jack.set_client_name self name
  = (self,
     [Warning
        "midi_in_jack::setClientName: this function is not implemented for the UNIX_JACK API!"])
  /\ forallb (fun e => negb (is_error e))
       (snd (Jack.set_port_name self name)) = true.
Proof. split; reflexivity. Qed.

(** C3: the code against the claim.  On the sequencer driver
    [set_client_name] and [set_port_name] call themselves without end: no
    amount of fuel lets either of them return. *)
Theorem alsa_rename_never_returns fuel self name :
  Alsa.set_client_name fuel self name = None
  /\ Alsa.set_port_name fuel self name = None.
Proof.
  split; induction fuel as [|fuel IH]; simpl; auto.
Qed.

(** ** [close_port] twice (C10) *)

(** C10.  On either driver, in any state, a second [close_port] right after
    a first one changes nothing and has no effect at all: no native call,
    no warning, no error. *)
Theorem close_port_idempotent :
  (forall self,
      Alsa.close_port (fst (Alsa.close_port self))
      = (fst (Alsa.close_port self), []))
  /\ (forall self,
         Jack.close_port (fst (Jack.close_port self))
         = (fst (Jack.close_port self), [])).
Proof.
  split; intros self.
  - unfold Alsa.close_port.
    destruct (Alsa.connected_ self) eqn:E; cbn [fst].
    + reflexivity.
    + rewrite E. reflexivity.
  - unfold Jack.close_port.
    destruct (Jack.port self) eqn:E; cbn [fst].
    + reflexivity.
    + rewrite E. reflexivity.
Qed.

(** * The transmit path *)

Lemma to_uint_small (x : Z) : 0 <= x < 2 ^ 32 -> to_uint x = x.
Proof. intros H. unfold to_uint. apply Z.mod_small. exact H. Qed.

Lemma to_uint64_small (x : Z) : 0 <= x < 2 ^ 64 -> to_uint64 x = x.
Proof. intros H. unfold to_uint64. apply Z.mod_small. exact H. Qed.

Lemma to_long_small (x : Z) : 0 <= x < 2 ^ 63 -> to_long x = x.
Proof. intros H. unfold to_long. rewrite Z.mod_small; lia. Qed.

(** The loop changes no member of the driver, so [send_message] changes
    [bufferSize] and [coder] only, and only when the message is longer than
    the recorded capacity. *)
Lemma send_message_bufferSize fuel s self message self' e :
  Alsa.send_message fuel s self message = Some (self', e) ->
  Alsa.bufferSize self' =
  if Z.of_nat (List.length message) >? Alsa.bufferSize self
  then to_uint (Z.of_nat (List.length message))
  else Alsa.bufferSize self.
Proof.
  unfold Alsa.send_message, Alsa.resize_buffer.
  destruct (Z.of_nat (List.length message) >? Alsa.bufferSize self).
  - destruct (Alsa.resize_buffer_result s =? 0) eqn:E;
      cbn [negb Z.eqb]; rewrite ?E; cbn [negb].
    + destruct (Alsa.send_loop _ _ _ _ _ _); intros H; inversion H.
      reflexivity.
    + intros H; inversion H. reflexivity.
  - destruct (Alsa.send_loop _ _ _ _ _ _); intros H; inversion H.
    reflexivity.
Qed.

(** With no native failure the loop started at [offset] queues the rest of
    the message, chunk after chunk, and ends with the drain request. *)
Lemma send_loop_covers s self message :
  Z.of_nat (List.length message) < 2 ^ 63 ->
  no_native_failure s ->
  forall fuel offset,
    0 <= offset <= Z.of_nat (List.length message) ->
    Z.of_nat (List.length message) - offset < Z.of_nat fuel ->
    exists e,
      Alsa.send_loop fuel s self message (Z.of_nat (List.length message)) offset
      = Some e
      /\ Alsa.transmitted e = skipn (Z.to_nat offset) message
      /\ forallb is_native e = true.
Proof.
  intros Hsize (_ & Henc & Hout).
  induction fuel as [|fuel IH]; intros offset Hoff Hfuel.
  - lia.
  - cbn [Alsa.send_loop].
    destruct (offset <? Z.of_nat (List.length message)) eqn:Elt.
    + apply Z.ltb_lt in Elt.
      rewrite (to_long_small (Z.of_nat (List.length message))) by lia.
      rewrite (to_uint64_small (Z.of_nat (List.length message) - offset))
        by lia.
      rewrite to_long_small by lia.
      set (rest := skipn (Z.to_nat offset) message).
      set (count := Z.of_nat (List.length message) - offset).
      destruct (Henc rest count ltac:(unfold count; lia)) as [Hr Hty].
      destruct (Alsa.encode_result s rest count) as [result type].
      cbn [fst snd] in Hr, Hty.
      replace (result <? 0) with false by (symmetry; apply Z.ltb_ge; lia).
      replace (type =? Alsa.SND_SEQ_EVENT_NONE) with false
        by (symmetry; apply Z.eqb_neq; assumption).
      unfold count in Hr.
      rewrite (to_uint64_small (offset + result)) by lia.
      match goal with
      | |- context [Alsa.event_output_result s ?o ?ev <? 0] =>
          replace (Alsa.event_output_result s o ev <? 0) with false
            by (symmetry; apply Z.ltb_ge; apply Hout)
      end.
      destruct (IH (offset + result)) as (e & He & Htx & Hnat);
        [lia | lia |].
      rewrite He. eexists. split; [reflexivity|]. split.
      * cbn [Alsa.transmitted Alsa.ev_bytes]. rewrite Htx.
        replace (Z.to_nat (offset + result))
          with (Z.to_nat result + Z.to_nat offset)%nat by lia.
        rewrite <- skipn_skipn. fold rest. apply firstn_skipn.
      * cbn [forallb is_native andb]. exact Hnat.
    + apply Z.ltb_ge in Elt.
      assert (offset = Z.of_nat (List.length message)) by lia. subst offset.
      eexists. split; [reflexivity|]. split.
      * cbn [Alsa.transmitted]. rewrite Nat2Z.id.
        symmetry. apply skipn_all.
      * reflexivity.
Qed.

(** No request of the lifecycle touches [bufferSize], and [send_message]
    only raises it while messages stay below [2 ^ 32] bytes. *)
Lemma serve_bufferSize self r self' e :
  short_message r ->
  serve self r = Some (self', e) ->
  Alsa.bufferSize self <= Alsa.bufferSize self'.
Proof.
  destruct r as [s n name | s name | | fuel s message];
    cbn [serve short_message]; intros Hs H.
  - injection H as H. apply (f_equal fst) in H. cbn [fst] in H.
    subst self'. unfold Alsa.open_port.
    destruct (Alsa.connected_ self); [cbn; lia|].
    destruct (Alsa.get_port_count s <? 1); [cbn; lia|].
    destruct (Alsa.port_info _ _ _); [|cbn; lia].
    unfold Alsa.create_vport.
    destruct (Alsa.vport self <? 0); cbn [Alsa.vport Alsa.set_vport].
    + destruct (to_int _ <? 0); [cbn; lia|].
      destruct (_ <? 0); [cbn; lia|].
      destruct (negb _); cbn; lia.
    + destruct (Alsa.vport self <? 0); [cbn; lia|].
      destruct (_ <? 0); [cbn; lia|].
      destruct (negb _); cbn; lia.
  - injection H as H. apply (f_equal fst) in H. cbn [fst] in H.
    subst self'.
    unfold Alsa.open_virtual_port, Alsa.create_vport.
    destruct (Alsa.vport self <? 0); cbn [Alsa.vport Alsa.set_vport andb].
    + destruct (to_int _ <? 0); cbn; lia.
    + cbn; lia.
  - injection H as H. apply (f_equal fst) in H. cbn [fst] in H.
    subst self'. unfold Alsa.close_port.
    destruct (Alsa.connected_ self); cbn; lia.
  - rewrite (send_message_bufferSize _ _ _ _ _ _ H).
    destruct (Z.of_nat (List.length message) >? Alsa.bufferSize self) eqn:E.
    + rewrite to_uint_small by lia. lia.
    + lia.
Qed.

Lemma bufferSize_never_decreases rs :
  Forall short_message rs ->
  forall self self',
    serve_all self rs = Some self' ->
    Alsa.bufferSize self <= Alsa.bufferSize self'.
Proof.
  induction 1 as [|r rest Hr _ IH]; intros self self' H; cbn in H.
  - inversion H. lia.
  - destruct (serve self r) as [[self1 e]|] eqn:E; [|discriminate].
    pose proof (serve_bufferSize _ _ _ _ Hr E).
    pose proof (IH _ _ H). lia.
Qed.

(** ** A failed resize (C5) *)

(** C5: the code against the claim.  The message is longer than the
    recorded capacity and the native resize fails.  A driver error is
    reported and nothing is transmitted, but the driver is not as it was:
    [bufferSize] already holds the length of the message, while the encoder
    is the one it had, bound to the old capacity. *)
Theorem send_message_failed_resize fuel s self message :
  Z.of_nat (List.length message) > Alsa.bufferSize self ->
  Z.of_nat (List.length message) < 2 ^ 32 ->
  Alsa.resize_buffer_result s <> 0 ->
  exists self',
    Alsa.send_message fuel s self message
    = Some (self',
            [Native (Alsa.snd_midi_event_resize_buffer
                       (Z.of_nat (List.length message)));
             Error driver_error
               "midi_out_alsa::send_message: ALSA error resizing MIDI event buffer."])
    /\ Alsa.bufferSize self' = Z.of_nat (List.length message)
    /\ Alsa.coder self' = Alsa.coder self
    /\ self' <> self.
Proof.
  intros Hgt Hlt Hres. unfold Alsa.send_message, Alsa.resize_buffer.
  replace (Z.of_nat (List.length message) >? Alsa.bufferSize self) with true
    by (symmetry; apply Z.gtb_lt; lia).
  replace (Alsa.resize_buffer_result s =? 0) with false
    by (symmetry; apply Z.eqb_neq; assumption).
  replace (Alsa.resize_buffer_result s =? 0) with false
    by (symmetry; apply Z.eqb_neq; assumption).
  cbn [negb]. rewrite to_uint_small by lia.
  eexists. split; [reflexivity|]. split; [reflexivity|].
  split; [reflexivity|].
  intros Heq. apply (f_equal Alsa.bufferSize) in Heq. cbn in Heq. lia.
Qed.

Lemma send_message_failed_resize_witness :
  exists self',
    Alsa.send_message 0 sequencer_out_of_memory fresh_out (repeat 0 33)
    = Some (self',
            [Native (Alsa.snd_midi_event_resize_buffer 33);
             Error driver_error
               "midi_out_alsa::send_message: ALSA error resizing MIDI event buffer."])
    /\ Alsa.bufferSize self' = 33
    /\ Alsa.coder self' = Some {| Alsa.bufsize := 32 |}
    /\ self' <> fresh_out.
Proof.
  apply (send_message_failed_resize 0 sequencer_out_of_memory fresh_out
           (repeat 0 33)).
  - reflexivity.
  - reflexivity.
  - discriminate.
Defined.

(** ** Buffer growth and coverage of the message (C9) *)

(** C9, as amended.  The message is longer than the recorded capacity and
    shorter than [2 ^ 32] bytes, the range of [bufferSize].  Then every
    [send_message] that returns leaves [bufferSize] at exactly the length of
    the message; over any sequence of requests with such messages
    [bufferSize] never decreases; and with no native failure [send_message]
    returns, the encoder is bound to the new capacity, and the chunks queued
    one after the other are the whole message from its first byte to its
    last, with nothing reported. *)
Theorem send_message_grows_and_covers s self message :
  Z.of_nat (List.length message) > Alsa.bufferSize self ->
  Z.of_nat (List.length message) < 2 ^ 32 ->
  (forall fuel self' e,
      Alsa.send_message fuel s self message = Some (self', e) ->
      Alsa.bufferSize self' = Z.of_nat (List.length message))
  /\ (forall rs self',
         Forall short_message rs ->
         serve_all self rs = Some self' ->
         Alsa.bufferSize self <= Alsa.bufferSize self')
  /\ (no_native_failure s ->
      exists self' e,
        Alsa.send_message (S (List.length message)) s self message
        = Some (self', e)
        /\ Alsa.bufferSize self' = Z.of_nat (List.length message)
        /\ (Alsa.coder self <> None ->
            Alsa.coder self'
            = Some {| Alsa.bufsize := Z.of_nat (List.length message) |})
        /\ Alsa.transmitted e = message
        /\ forallb is_native e = true).
Proof.
  intros Hgt Hlt. split; [|split].
  - intros fuel self' e H.
    rewrite (send_message_bufferSize _ _ _ _ _ _ H).
    replace (Z.of_nat (List.length message) >? Alsa.bufferSize self)
      with true by (symmetry; apply Z.gtb_lt; lia).
    apply to_uint_small. lia.
  - intros rs self' Hrs H. exact (bufferSize_never_decreases rs Hrs _ _ H).
  - intros Hok. pose proof Hok as (Hres & _ & _).
    unfold Alsa.send_message, Alsa.resize_buffer.
    replace (Z.of_nat (List.length message) >? Alsa.bufferSize self)
      with true by (symmetry; apply Z.gtb_lt; lia).
    rewrite Hres. cbn [Z.eqb negb].
    match goal with
    | |- context [Alsa.send_loop _ s ?self2 message _ 0] =>
        destruct (send_loop_covers s self2 message ltac:(lia) Hok
                    (S (List.length message)) 0 ltac:(lia) ltac:(lia))
          as (e & He & Htx & Hnat)
    end.
    rewrite He. do 2 eexists. split; [reflexivity|].
    split; [cbn; apply to_uint_small; lia|]. split; [|split].
    + intros Hc. cbn. destruct (Alsa.coder self); [reflexivity|congruence].
    + cbn [Alsa.transmitted]. exact Htx.
    + exact Hnat.
Qed.

Lemma sequencer_no_native_failure ports : no_native_failure (sequencer ports).
Proof.
  split; [reflexivity|]. split.
  - intros buf count Hc. cbn. split; [lia | discriminate].
  - intros offset ev. cbn. lia.
Qed.

Lemma send_message_grows_and_covers_witness :
  exists self' e,
    Alsa.send_message 34 (sequencer []) fresh_out (repeat 0 33)
    = Some (self', e)
    /\ Alsa.bufferSize self' = 33
    /\ (Alsa.coder fresh_out <> None ->
        Alsa.coder self' = Some {| Alsa.bufsize := 33 |})
    /\ Alsa.transmitted e = repeat 0 33
    /\ forallb is_native e = true.
Proof.
  apply (proj2 (proj2 (send_message_grows_and_covers (sequencer []) fresh_out
                         (repeat 0 33) eq_refl eq_refl))).
  apply sequencer_no_native_failure.
Defined.

(** C9 as stated fails for a message of [2 ^ 32 + 1] bytes: the length does
    not fit [bufferSize], which ends up at [1], below the [32] it had, with
    no native failure at all. *)
Lemma send_message_capacity_wraps :
  Z.of_nat (List.length (repeat 0 (Z.to_nat 4294967297)))
  > Alsa.bufferSize fresh_out
  /\ exists self' e,
       Alsa.send_message 1 (sequencer []) fresh_out
         (repeat 0 (Z.to_nat 4294967297)) = Some (self', e)
       /\ Alsa.bufferSize self' = 1
       /\ Alsa.bufferSize self'
          <> Z.of_nat (List.length (repeat 0 (Z.to_nat 4294967297)))
       /\ Alsa.bufferSize self' < Alsa.bufferSize fresh_out.
Proof.
  remember (repeat 0 (Z.to_nat 4294967297)) as big eqn:Hbig.
  assert (Hlen : Z.of_nat (List.length big) = 4294967297).
  { subst big. rewrite repeat_length. apply Z2Nat.id. lia. }
  rewrite Hlen. split; [reflexivity|].
  unfold Alsa.send_message. rewrite Hlen.
  change (4294967297 >? Alsa.bufferSize fresh_out) with true.
  cbv iota. unfold Alsa.resize_buffer.
  change (Alsa.resize_buffer_result (sequencer [])) with 0.
  cbn [Z.eqb negb].
  cbn [Alsa.send_loop]. change (0 <? 4294967297) with true. cbv iota.
  change (Alsa.encode_result (sequencer [])) with (fun (_ : list Z) (c : Z) => (c, 130)).
  cbv beta.
  change (to_long 4294967297) with 4294967297.
  change (to_long (to_uint64 (4294967297 - 0))) with 4294967297.
  cbv iota beta.
  change (4294967297 <? 0) with false.
  change (130 =? Alsa.SND_SEQ_EVENT_NONE) with false.
  cbv iota.
  change (to_uint64 (0 + 4294967297)) with 4294967297.
  change (Alsa.event_output_result (sequencer [])) with (fun (_ : Z) (_ : Alsa.snd_seq_event_t) => 0).
  cbv beta. change (0 <? 0) with false. cbv iota.
  change (4294967297 <? 4294967297) with false. cbv iota.
  do 2 eexists. split; [reflexivity|].
  cbn [Alsa.bufferSize Alsa.set_coder Alsa.set_bufferSize fresh_out].
  change (to_uint 4294967297) with 1.
  split; [reflexivity|]. split; [discriminate | reflexivity].
Qed.

(** * Further properties of the receive path *)

Lemma process_event_configuration self t ev :
  Jack.configuration (fst (Jack.process_event self t ev))
  = Jack.configuration self.
Proof.
  unfold Jack.process_event.
  destruct (Jack.classify _ _ _) as [cont skip].
  destruct (skip || cont); reflexivity.
Qed.

Lemma classify_unfiltered cfg cont ev :
  Jack.ignore_sysex cfg = false ->
  Jack.ignore_timing cfg = false ->
  Jack.ignore_sensing cfg = false ->
  snd (Jack.classify cfg cont ev) = false.
Proof.
  intros Hs Ht He. unfold Jack.classify. rewrite Hs, Ht, He.
  destruct (Jack.buffer_head ev =? SYSEX_START); [reflexivity|].
  destruct ((Jack.buffer_head ev =? MTC_QUARTER)
            || (Jack.buffer_head ev =? TIMING_CLOCK)); [reflexivity|].
  destruct (Jack.buffer_head ev =? ACTIVE_SENSING); [reflexivity|].
  destruct cont; reflexivity.
Qed.

(** One fragment, no filter: what is delivered and what stays pending is
    what was pending followed by the fragment. *)
Lemma process_event_conserves self t ev :
  Jack.ignore_sysex (Jack.configuration self) = false ->
  Jack.ignore_timing (Jack.configuration self) = false ->
  Jack.ignore_sensing (Jack.configuration self) = false ->
  match snd (Jack.process_event self t ev) with
  | Some m => bytes m
  | None => []
  end ++ pending (fst (Jack.process_event self t ev))
  = pending self ++ Jack.buffer ev.
Proof.
  intros Hs Ht He.
  pose proof (classify_unfiltered _ (Jack.continueSysex self) ev Hs Ht He)
    as Hskip.
  unfold Jack.process_event. rewrite Hs, andb_false_r.
  destruct (Jack.classify _ _ _) as [cont skip].
  cbn [snd] in Hskip. subst skip. cbn [orb].
  destruct cont; cbn [fst snd]; unfold pending;
    cbn [Jack.continueSysex Jack.message_ bytes message_clear];
    rewrite ?app_nil_r; reflexivity.
Qed.

(** X1.  With no filter enabled the receive path loses, adds and reorders
    nothing: the bytes of the messages delivered, followed by the bytes
    still pending, are the bytes that were pending followed by the bytes of
    all the fragments. *)
Theorem unfiltered_bytes_conserved self cycles :
  Jack.port self <> None ->
  Jack.ignore_sysex (Jack.configuration self) = false ->
  Jack.ignore_timing (Jack.configuration self) = false ->
  Jack.ignore_sensing (Jack.configuration self) = false ->
  List.concat (map bytes (snd (Jack.run_cycles self cycles)))
  ++ pending (fst (Jack.run_cycles self cycles))
  = pending self ++ all_bytes (List.concat cycles).
Proof.
  intros Hp Hs Ht He. rewrite run_cycles_concat by assumption. clear Hp.
  generalize (List.concat cycles) as events. intros events.
  revert self Hs Ht He.
  induction events as [|[t ev] rest IH]; intros self Hs Ht He.
  - cbn. unfold all_bytes. cbn. rewrite app_nil_r. reflexivity.
  - cbn [Jack.process_events].
    pose proof (process_event_conserves self t ev Hs Ht He) as Hstep.
    pose proof (process_event_configuration self t ev) as Hcfg.
    destruct (Jack.process_event self t ev) as [self1 out].
    cbn [fst snd] in Hstep, Hcfg.
    specialize (IH self1). rewrite Hcfg in IH. specialize (IH Hs Ht He).
    destruct (Jack.process_events self1 rest) as [self2 outs].
    cbn [fst snd] in *.
    unfold all_bytes in *. cbn [map List.concat snd].
    rewrite app_assoc, <- Hstep, <- app_assoc, <- IH.
    destruct out as [m|]; cbn [map List.concat];
      rewrite <- ?app_assoc; reflexivity.
Qed.

Lemma unfiltered_bytes_conserved_witness :
  List.concat
    (map bytes
       (snd (Jack.run_cycles (listening (filters false false false))
               [[(0, Jack.fragment 0x90 [60; 100]);
                 (5, Jack.fragment 0xF0 [1])];
                [(9, Jack.fragment 2 [3])]])))
  ++ pending
       (fst (Jack.run_cycles (listening (filters false false false))
               [[(0, Jack.fragment 0x90 [60; 100]);
                 (5, Jack.fragment 0xF0 [1])];
                [(9, Jack.fragment 2 [3])]]))
  = pending (listening (filters false false false))
    ++ all_bytes
         (List.concat
            [[(0, Jack.fragment 0x90 [60; 100]);
              (5, Jack.fragment 0xF0 [1])];
             [(9, Jack.fragment 2 [3])]]).
Proof.
  apply (unfiltered_bytes_conserved (listening (filters false false false))).
  - discriminate.
  - reflexivity.
  - reflexivity.
  - reflexivity.
Defined.

(** While a continuation is pending and SysEx is let through, a fragment
    with a plain status byte is appended, and the last byte decides whether
    the message is complete. *)
Lemma classify_continuing cfg ev :
  Jack.ignore_sysex cfg = false ->
  plain_status ev ->
  Jack.classify cfg true ev
  = (negb (Jack.buffer_last ev =? SYSEX_END), false).
Proof.
  intros Hs (H1 & H8 & HE). unfold Jack.classify. rewrite Hs.
  unfold MTC_QUARTER, TIMING_CLOCK, ACTIVE_SENSING.
  destruct (Jack.buffer_head ev =? SYSEX_START); [reflexivity|].
  refute_byte (Jack.buffer_head ev) 241.
  refute_byte (Jack.buffer_head ev) 248.
  refute_byte (Jack.buffer_head ev) 254.
  reflexivity.
Qed.

Lemma process_event_continuing self t ev :
  Jack.ignore_sysex (Jack.configuration self) = false ->
  Jack.continueSysex self = true ->
  plain_status ev ->
  Jack.buffer_last ev <> 0xF7 ->
  snd (Jack.process_event self t ev) = None
  /\ Jack.continueSysex (fst (Jack.process_event self t ev)) = true
  /\ bytes (Jack.message_ (fst (Jack.process_event self t ev)))
     = bytes (Jack.message_ self) ++ Jack.buffer ev.
Proof.
  intros Hs Hc Hpl Hne. unfold Jack.process_event.
  rewrite Hs, Hc, andb_false_r, (classify_continuing _ _ Hs Hpl).
  unfold SYSEX_END. refute_byte (Jack.buffer_last ev) 247.
  cbn. repeat split.
Qed.

Lemma process_event_completing self t ev :
  Jack.ignore_sysex (Jack.configuration self) = false ->
  Jack.continueSysex self = true ->
  plain_status ev ->
  Jack.buffer_last ev = 0xF7 ->
  option_map bytes (snd (Jack.process_event self t ev))
  = Some (bytes (Jack.message_ self) ++ Jack.buffer ev)
  /\ Jack.continueSysex (fst (Jack.process_event self t ev)) = false.
Proof.
  intros Hs Hc Hpl Hlast. unfold Jack.process_event.
  rewrite Hs, Hc, andb_false_r, (classify_continuing _ _ Hs Hpl).
  unfold SYSEX_END. rewrite Hlast. cbn. split; reflexivity.
Qed.

Lemma process_event_starting self t tl0 :
  Jack.ignore_sysex (Jack.configuration self) = false ->
  Jack.continueSysex self = false ->
  Jack.buffer_last (Jack.fragment 0xF0 tl0) <> 0xF7 ->
  snd (Jack.process_event self t (Jack.fragment 0xF0 tl0)) = None
  /\ Jack.continueSysex
       (fst (Jack.process_event self t (Jack.fragment 0xF0 tl0))) = true
  /\ bytes (Jack.message_
              (fst (Jack.process_event self t (Jack.fragment 0xF0 tl0))))
     = Jack.buffer (Jack.fragment 0xF0 tl0).
Proof.
  intros Hs Hc Hne. unfold Jack.process_event, Jack.classify.
  rewrite Hs, Hc, andb_false_r.
  cbn [Jack.buffer_head]. unfold SYSEX_START, SYSEX_END.
  cbn [Z.eqb Pos.eqb].
  refute_byte (Jack.buffer_last (Jack.fragment 240 tl0)) 247.
  cbn. repeat split.
Qed.

Lemma sysex_continuation mids :
  forall self tl lastev,
    Jack.ignore_sysex (Jack.configuration self) = false ->
    Jack.continueSysex self = true ->
    Forall (fun te => plain_status (snd te)
                      /\ Jack.buffer_last (snd te) <> 0xF7) mids ->
    plain_status lastev ->
    Jack.buffer_last lastev = 0xF7 ->
    map bytes (snd (Jack.process_events self (mids ++ [(tl, lastev)])))
    = [bytes (Jack.message_ self) ++ all_bytes mids ++ Jack.buffer lastev]
    /\ Jack.continueSysex
         (fst (Jack.process_events self (mids ++ [(tl, lastev)]))) = false.
Proof.
  induction mids as [|[t ev] rest IH];
    intros self tl lastev Hs Hc Hmid Hpl Hlast.
  - cbn [app Jack.process_events].
    destruct (process_event_completing self tl lastev Hs Hc Hpl Hlast)
      as [Ho Hf].
    destruct (Jack.process_event self tl lastev) as [self1 out].
    cbn [fst snd] in *. destruct out as [m|]; [|discriminate].
    cbn [option_map] in Ho. injection Ho as Ho.
    cbn [map]. rewrite Ho. split; [reflexivity | exact Hf].
  - inversion Hmid as [|? ? [Hple Hne] Hrest]; subst.
    cbn [app Jack.process_events snd] in *.
    destruct (process_event_continuing self t ev Hs Hc Hple Hne)
      as (Ho & Hk & Hb).
    pose proof (process_event_configuration self t ev) as Hcfg.
    destruct (Jack.process_event self t ev) as [self1 out].
    cbn [fst snd] in *. subst out.
    rewrite <- Hcfg in Hs.
    destruct (IH self1 tl lastev Hs Hk Hrest Hpl Hlast) as [Hbs Hf].
    destruct (Jack.process_events self1 (rest ++ [(tl, lastev)]))
      as [self2 outs].
    cbn [fst snd] in *. split; [|exact Hf].
    rewrite Hbs, Hb. unfold all_bytes. cbn [map List.concat snd].
    rewrite <- !app_assoc. reflexivity.
Qed.

(** X2.  A SysEx message split into any number of fragments is delivered as
    one message.  SysEx is let through and nothing is pending; the first
    fragment starts with [0xF0] and does not end with [0xF7], the fragments
    in between have a plain status byte and do not end with [0xF7], the
    last one has a plain status byte and ends with [0xF7].  However the
    fragments are spread over process cycles, exactly one message is
    delivered, it is the concatenation of all the fragments, and nothing is
    pending afterwards. *)
Theorem sysex_reassembled_from_fragments self cycles t0 tl0 mids tl lastev :
  Jack.port self <> None ->
  Jack.ignore_sysex (Jack.configuration self) = false ->
  Jack.continueSysex self = false ->
  List.concat cycles
  = (t0, Jack.fragment 0xF0 tl0) :: mids ++ [(tl, lastev)] ->
  Jack.buffer_last (Jack.fragment 0xF0 tl0) <> 0xF7 ->
  Forall (fun te => plain_status (snd te)
                    /\ Jack.buffer_last (snd te) <> 0xF7) mids ->
  plain_status lastev ->
  Jack.buffer_last lastev = 0xF7 ->
  map bytes (snd (Jack.run_cycles self cycles))
  = [all_bytes (List.concat cycles)]
  /\ Jack.continueSysex (fst (Jack.run_cycles self cycles)) = false.
Proof.
  intros Hp Hs Hc Hev Hfirst Hmid Hpl Hlast.
  rewrite run_cycles_concat by assumption. rewrite Hev.
  cbn [Jack.process_events].
  destruct (process_event_starting self t0 tl0 Hs Hc Hfirst)
    as (Ho & Hk & Hb).
  pose proof (process_event_configuration self t0 (Jack.fragment 0xF0 tl0))
    as Hcfg.
  destruct (Jack.process_event self t0 (Jack.fragment 0xF0 tl0))
    as [self1 out].
  cbn [fst snd] in *. subst out. rewrite <- Hcfg in Hs.
  destruct (sysex_continuation mids self1 tl lastev Hs Hk Hmid Hpl Hlast)
    as [Hbs Hf].
  destruct (Jack.process_events self1 (mids ++ [(tl, lastev)]))
    as [self2 outs].
  cbn [fst snd] in *. split; [|exact Hf].
  rewrite Hbs, Hb. unfold all_bytes. cbn [map List.concat snd].
  rewrite map_app, concat_app. cbn [map List.concat snd app].
  rewrite app_nil_r. reflexivity.
Qed.

Lemma sysex_reassembled_from_fragments_witness :
  map bytes
    (snd (Jack.run_cycles (listening (filters false true true))
            [[(0, Jack.fragment 0xF0 [1; 2])];
             [(7, Jack.fragment 3 [4]); (9, Jack.fragment 5 [6])];
             [(20, Jack.fragment 7 [0xF7])]]))
  = [all_bytes
       (List.concat
          [[(0, Jack.fragment 0xF0 [1; 2])];
           [(7, Jack.fragment 3 [4]); (9, Jack.fragment 5 [6])];
           [(20, Jack.fragment 7 [0xF7])]])]
  /\ Jack.continueSysex
       (fst (Jack.run_cycles (listening (filters false true true))
               [[(0, Jack.fragment 0xF0 [1; 2])];
                [(7, Jack.fragment 3 [4]); (9, Jack.fragment 5 [6])];
                [(20, Jack.fragment 7 [0xF7])]])) = false.
Proof.
  apply (sysex_reassembled_from_fragments
           (listening (filters false true true)) _ 0 [1; 2]
           [(7, Jack.fragment 3 [4]); (9, Jack.fragment 5 [6])]
           20 (Jack.fragment 7 [0xF7])).
  - discriminate.
  - reflexivity.
  - reflexivity.
  - reflexivity.
  - cbn. lia.
  - repeat constructor; cbn; lia.
  - repeat split; cbn; lia.
  - reflexivity.
Defined.

(** Decides a delivery by the cases of the filters, the continuation flag
    and the status byte. *)
Ltac delivery_cases self ev :=
  unfold Jack.process_event, Jack.classify;
  destruct (Jack.ignore_sysex (Jack.configuration self)) eqn:?;
  destruct (Jack.ignore_timing (Jack.configuration self)) eqn:?;
  destruct (Jack.ignore_sensing (Jack.configuration self)) eqn:?;
  destruct (Jack.continueSysex self) eqn:?;
  destruct (Jack.buffer_head ev =? SYSEX_START) eqn:?;
  destruct ((Jack.buffer_head ev =? MTC_QUARTER)
            || (Jack.buffer_head ev =? TIMING_CLOCK)) eqn:?;
  destruct (Jack.buffer_head ev =? ACTIVE_SENSING) eqn:?;
  destruct (negb (Jack.buffer_last ev =? SYSEX_END)) eqn:?;
  cbn [orb andb negb fst snd].

Lemma process_event_delivers_fragment self t ev m :
  snd (Jack.process_event self t ev) = Some m ->
  exists pre, bytes m = pre ++ Jack.buffer ev.
Proof.
  delivery_cases self ev; intros H; try discriminate;
    injection H as <-; cbn [bytes];
    first [exists (@nil Z); reflexivity | eexists; reflexivity].
Qed.

Lemma process_event_delivers_whole_fragment self t ev m :
  Jack.ignore_sysex (Jack.configuration self) = true ->
  snd (Jack.process_event self t ev) = Some m ->
  bytes m = Jack.buffer ev /\ Jack.buffer_head ev <> 0xF0.
Proof.
  intros Hs. revert Hs.
  delivery_cases self ev; intros Hs H; try discriminate;
    injection H as <-; cbn [bytes app];
    (split; [reflexivity | apply Z.eqb_neq; assumption]).
Qed.

(** Lifts a fact about the message a fragment completes to all the messages
    of a run. *)
Lemma deliveries_from_fragments (P : Jack.midi_in_jack -> Prop)
    (Q : Jack.jack_midi_event_t -> message -> Prop) :
  (forall self t ev, P self -> P (fst (Jack.process_event self t ev))) ->
  (forall self t ev m,
      P self -> snd (Jack.process_event self t ev) = Some m -> Q ev m) ->
  forall events self,
    P self ->
    Forall (fun m => exists t ev, In (t, ev) events /\ Q ev m)
           (snd (Jack.process_events self events)).
Proof.
  intros Hkeep Hstep.
  induction events as [|[t ev] rest IH]; intros self HP.
  - constructor.
  - cbn [Jack.process_events].
    pose proof (Hkeep self t ev HP) as HP1.
    pose proof (Hstep self t ev) as Hm.
    destruct (Jack.process_event self t ev) as [self1 out].
    cbn [fst snd] in *. specialize (IH self1 HP1).
    destruct (Jack.process_events self1 rest) as [self2 outs].
    cbn [snd] in *.
    assert (Hrest : Forall
              (fun m => exists t' ev', In (t', ev') ((t, ev) :: rest)
                                       /\ Q ev' m) outs).
    { eapply Forall_impl; [|exact IH].
      intros m (t' & ev' & Hin & HQ). exists t', ev'.
      split; [right; exact Hin | exact HQ]. }
    destruct out as [m|]; [|exact Hrest].
    constructor; [|exact Hrest].
    exists t, ev. split; [left; reflexivity | apply Hm; auto].
Qed.

(** X3.  The callback never receives an empty message: every message
    delivered by a run of process cycles ends with all the bytes of one of
    the fragments of the run, whatever the filters and the state. *)
Theorem delivered_messages_end_with_a_fragment self cycles :
  Forall
    (fun m =>
       bytes m <> []
       /\ exists t ev pre,
            In (t, ev) (List.concat cycles)
            /\ bytes m = pre ++ Jack.buffer ev)
    (snd (Jack.run_cycles self cycles)).
Proof.
  destruct (Jack.port self) eqn:Hp.
  - rewrite run_cycles_concat by congruence.
    eapply Forall_impl;
      [|apply (deliveries_from_fragments (fun _ => True)
                 (fun ev m => exists pre, bytes m = pre ++ Jack.buffer ev));
        [auto
        | intros s0 t0 ev0 m0 _ Hd;
          exact (process_event_delivers_fragment s0 t0 ev0 m0 Hd)
        | exact I]].
    intros m (t & ev & Hin & pre & Hb). split.
    + rewrite Hb. unfold Jack.buffer. destruct pre; discriminate.
    + exists t, ev, pre. split; assumption.
  - rewrite run_cycles_no_port by assumption. constructor.
Qed.

(** X4.  With ignore-sysex enabled no SysEx byte reaches the callback:
    every message delivered is exactly one fragment of the run, unchanged,
    and that fragment does not start with [0xF0]. *)
Theorem ignore_sysex_delivers_single_fragments self cycles :
  Jack.ignore_sysex (Jack.configuration self) = true ->
  Forall
    (fun m =>
       exists t ev,
         In (t, ev) (List.concat cycles)
         /\ bytes m = Jack.buffer ev
         /\ Jack.buffer_head ev <> 0xF0)
    (snd (Jack.run_cycles self cycles)).
Proof.
  intros Hs. destruct (Jack.port self) eqn:Hp.
  - rewrite run_cycles_concat by congruence.
    apply (deliveries_from_fragments
             (fun s => Jack.ignore_sysex (Jack.configuration s) = true)
             (fun ev m => bytes m = Jack.buffer ev
                          /\ Jack.buffer_head ev <> 0xF0)).
    + intros s0 t0 ev0 H. rewrite process_event_configuration. exact H.
    + intros s0 t0 ev0 m0 H.
      apply process_event_delivers_whole_fragment. exact H.
    + exact Hs.
  - rewrite run_cycles_no_port by assumption. constructor.
Qed.

Lemma ignore_sysex_delivers_single_fragments_witness :
  Forall
    (fun m =>
       exists t ev,
         In (t, ev)
            (List.concat
               [[(0, Jack.fragment 0xF0 [1]); (4, Jack.fragment 2 [0xF7])];
                [(9, Jack.fragment 0x90 [60; 100])]])
         /\ bytes m = Jack.buffer ev
         /\ Jack.buffer_head ev <> 0xF0)
    (snd (Jack.run_cycles (listening (filters true false false))
            [[(0, Jack.fragment 0xF0 [1]); (4, Jack.fragment 2 [0xF7])];
             [(9, Jack.fragment 0x90 [60; 100])]])).
Proof.
  apply (ignore_sysex_delivers_single_fragments
           (listening (filters true false false))).
  reflexivity.
Defined.

(** A fragment that does not start a SysEx message, with nothing pending:
    it is delivered unchanged unless its class is filtered out, and nothing
    is pending afterwards. *)
Lemma process_event_plain self t ev :
  Jack.continueSysex self = false ->
  Jack.buffer_head ev <> 0xF0 ->
  option_map bytes (snd (Jack.process_event self t ev))
  = (if filtered (Jack.configuration self) ev then None
     else Some (Jack.buffer ev))
  /\ Jack.continueSysex (fst (Jack.process_event self t ev)) = false.
Proof.
  intros Hc Hne. unfold Jack.process_event, Jack.classify, filtered.
  rewrite Hc. unfold SYSEX_START, MTC_QUARTER, TIMING_CLOCK, ACTIVE_SENSING.
  refute_byte (Jack.buffer_head ev) 240. cbn [orb andb].
  destruct (Jack.buffer_head ev =? 241) eqn:E1;
    destruct (Jack.buffer_head ev =? 248) eqn:E8;
    destruct (Jack.buffer_head ev =? 254) eqn:EE;
    rewrite ?Z.eqb_eq in *; try lia; cbn [orb andb];
    rewrite ?orb_false_r;
    try destruct (Jack.ignore_timing (Jack.configuration self));
    try destruct (Jack.ignore_sensing (Jack.configuration self));
    cbn; split; reflexivity.
Qed.

(** X5.  In a run without SysEx (nothing pending, no fragment starts with
    [0xF0]) the messages delivered are exactly the fragments whose class is
    not filtered out, unchanged and in the order of arrival: one message per
    fragment. *)
Theorem plain_fragments_filtered_by_class self cycles :
  Jack.port self <> None ->
  Jack.continueSysex self = false ->
  Forall (fun te => Jack.buffer_head (snd te) <> 0xF0) (List.concat cycles) ->
  map bytes (snd (Jack.run_cycles self cycles))
  = map Jack.buffer
      (filter (fun ev => negb (filtered (Jack.configuration self) ev))
         (map snd (List.concat cycles)))
  /\ Jack.continueSysex (fst (Jack.run_cycles self cycles)) = false.
Proof.
  intros Hp Hc Hall. rewrite run_cycles_concat by assumption. clear Hp.
  revert self Hc Hall. generalize (List.concat cycles) as events.
  induction events as [|[t ev] rest IH]; intros self Hc Hall.
  - split; [reflexivity | exact Hc].
  - inversion Hall as [|? ? Hne Hrest]; subst. cbn [snd] in Hne.
    cbn [Jack.process_events map filter snd].
    destruct (process_event_plain self t ev Hc Hne) as [Ho Hk].
    pose proof (process_event_configuration self t ev) as Hcfg.
    destruct (Jack.process_event self t ev) as [self1 out].
    cbn [fst snd] in *.
    destruct (IH self1 Hk Hrest) as [Hb Hf]. rewrite Hcfg in Hb.
    destruct (Jack.process_events self1 rest) as [self2 outs].
    cbn [fst snd] in *. split; [|exact Hf].
    destruct (filtered (Jack.configuration self) ev); cbn [negb];
      destruct out as [m|]; cbn [option_map] in Ho; try discriminate.
    + exact Hb.
    + injection Ho as Ho. cbn [map]. rewrite Ho, Hb. reflexivity.
Qed.

Lemma plain_fragments_filtered_by_class_witness :
  map bytes
    (snd (Jack.run_cycles (listening (filters false true true))
            [[(0, Jack.fragment 0x90 [60; 100]); (3, Jack.fragment 0xF8 [])];
             [(9, Jack.fragment 0xFE []); (12, Jack.fragment 0x80 [60; 0])]]))
  = map Jack.buffer
      (filter
         (fun ev =>
            negb (filtered
                    (Jack.configuration (listening (filters false true true)))
                    ev))
         (map snd
            (List.concat
               [[(0, Jack.fragment 0x90 [60; 100]);
                 (3, Jack.fragment 0xF8 [])];
                [(9, Jack.fragment 0xFE []);
                 (12, Jack.fragment 0x80 [60; 0])]])))
  /\ Jack.continueSysex
       (fst (Jack.run_cycles (listening (filters false true true))
               [[(0, Jack.fragment 0x90 [60; 100]);
                 (3, Jack.fragment 0xF8 [])];
                [(9, Jack.fragment 0xFE []);
                 (12, Jack.fragment 0x80 [60; 0])]])) = false.
Proof.
  apply (plain_fragments_filtered_by_class
           (listening (filters false true true))).
  - discriminate.
  - reflexivity.
  - repeat constructor; cbn; lia.
Defined.

(** X6.  While the driver has no port the process callback does nothing:
    right after construction, and after every [close_port], any number of
    process cycles delivers no message and leaves the driver as it is,
    whatever events the server has queued. *)
Theorem no_port_no_delivery :
  (forall srv conf cycles,
      Jack.run_cycles (fst (Jack.midi_in_jack_new srv conf)) cycles
      = (fst (Jack.midi_in_jack_new srv conf), []))
  /\ (forall self cycles,
         Jack.run_cycles (fst (Jack.close_port self)) cycles
         = (fst (Jack.close_port self), [])).
Proof.
  split.
  - intros srv conf cycles. apply run_cycles_no_port.
    unfold Jack.midi_in_jack_new, Jack.connect.
    cbn [Jack.client Jack.set_client Jack.set_port Jack.midi_in_api_new].
    destruct (Jack.client_open_ok srv); reflexivity.
  - intros self cycles. apply run_cycles_no_port.
    unfold Jack.close_port. destruct (Jack.port self) eqn:E.
    + reflexivity.
    + exact E.
Qed.

(** * Further properties of the input driver's life cycle *)

Lemma process_event_same_receive_state s1 s2 t ev :
  same_receive_state s1 s2 ->
  snd (Jack.process_event s1 t ev) = snd (Jack.process_event s2 t ev)
  /\ same_receive_state (fst (Jack.process_event s1 t ev))
                        (fst (Jack.process_event s2 t ev)).
Proof.
  intros (Hc & Hf & Hk & Hm & Hl). unfold Jack.process_event.
  rewrite Hc, Hf, Hk, Hm, Hl.
  destruct (Jack.classify _ _ _) as [cont skip].
  destruct (skip || cont); cbn [fst snd]; split; try reflexivity;
    repeat split.
Qed.

Lemma process_events_same_receive_state events :
  forall s1 s2,
    same_receive_state s1 s2 ->
    snd (Jack.process_events s1 events) = snd (Jack.process_events s2 events).
Proof.
  induction events as [|[t ev] rest IH]; intros s1 s2 Hs.
  - reflexivity.
  - cbn [Jack.process_events].
    destruct (process_event_same_receive_state s1 s2 t ev Hs) as [Ho Hn].
    destruct (Jack.process_event s1 t ev) as [s1' o1].
    destruct (Jack.process_event s2 t ev) as [s2' o2].
    cbn [fst snd] in Ho, Hn. subst o2. specialize (IH s1' s2' Hn).
    destruct (Jack.process_events s1' rest) as [s1'' outs1].
    destruct (Jack.process_events s2' rest) as [s2'' outs2].
    cbn [snd] in *. subst outs2. reflexivity.
Qed.

Lemma same_receive_state_refl self : same_receive_state self self.
Proof. repeat split. Qed.

Lemma same_receive_state_trans s1 s2 s3 :
  same_receive_state s1 s2 -> same_receive_state s2 s3 ->
  same_receive_state s1 s3.
Proof.
  intros (A1 & A2 & A3 & A4 & A5) (B1 & B2 & B3 & B4 & B5).
  repeat split; congruence.
Qed.

Lemma connect_receive_state srv self :
  same_receive_state (fst (Jack.connect srv self)) self.
Proof.
  unfold Jack.connect. destruct (Jack.client self).
  - apply same_receive_state_refl.
  - destruct (Jack.client_open_ok srv); repeat split.
Qed.

Lemma register_port_receive_state srv self name :
  same_receive_state (fst (Jack.register_port srv self name)) self.
Proof.
  unfold Jack.register_port. destruct (Jack.port self); repeat split.
Qed.

Lemma method_call_receive_state
    (check : string -> string -> bool * Jack.effects)
    (lookup : option (list string) -> Z -> string * Jack.effects) self r :
  is_method_call r = true ->
  same_receive_state (jack_serve check lookup self r) self.
Proof.
  destruct r as [srv n name | srv name | | name | name | events];
    cbn [is_method_call jack_serve]; intros H; try discriminate.
  - unfold Jack.open_port. destruct (check _ name) as [ok e0].
    destruct ok; cbn [negb]; [|apply same_receive_state_refl].
    pose proof (connect_receive_state srv self) as H1.
    destruct (Jack.connect srv self) as [self1 e1]. cbn [fst] in H1.
    pose proof (register_port_receive_state srv self1 name) as H2.
    destruct (Jack.register_port srv self1 name) as [self2 e2].
    cbn [fst] in H2.
    pose proof (same_receive_state_trans _ _ _ H2 H1) as H3.
    destruct (Jack.port self2); [|exact H3].
    destruct (Jack.get_port_name lookup srv self2 n) as [nm e3].
    cbn [fst]. destruct H3 as (A1 & A2 & A3 & A4 & A5). repeat split;
      assumption.
  - unfold Jack.open_virtual_port. destruct (check _ name) as [ok e0].
    destruct ok; cbn [negb]; [|apply same_receive_state_refl].
    pose proof (connect_receive_state srv self) as H1.
    destruct (Jack.connect srv self) as [self1 e1]. cbn [fst] in H1.
    pose proof (register_port_receive_state srv self1 name) as H2.
    destruct (Jack.register_port srv self1 name) as [self2 e2].
    cbn [fst] in H2.
    pose proof (same_receive_state_trans _ _ _ H2 H1) as H3.
    destruct (Jack.port self2); exact H3.
  - unfold Jack.close_port. destruct (Jack.port self); repeat split.
  - repeat split.
  - repeat split.
Qed.

(** X7.  No method of the driver resets the receive state.  After any
    sequence of calls of [open_port], [open_virtual_port], [close_port],
    [set_client_name] and [set_port_name] that leaves the driver with a
    port, the process cycles deliver the very messages (bytes and time
    stamps) that they would have delivered to the driver before those
    calls: a SysEx message interrupted by [close_port] is completed after
    the port is opened again. *)
Theorem method_calls_keep_receive_state
    (check : string -> string -> bool * Jack.effects)
    (lookup : option (list string) -> Z -> string * Jack.effects)
    self rs cycles :
  forallb is_method_call rs = true ->
  Jack.port self <> None ->
  Jack.port (jack_serve_all check lookup self rs) <> None ->
  snd (Jack.run_cycles (jack_serve_all check lookup self rs) cycles)
  = snd (Jack.run_cycles self cycles).
Proof.
  intros Hrs Hp Hp'.
  rewrite !run_cycles_concat by assumption.
  apply process_events_same_receive_state. clear Hp Hp'.
  unfold jack_serve_all. revert self Hrs.
  induction rs as [|r rest IH]; intros self Hrs.
  - apply same_receive_state_refl.
  - cbn [forallb fold_left] in *. apply andb_prop in Hrs as [Hr Hrest].
    eapply same_receive_state_trans;
      [apply IH; exact Hrest
      | apply method_call_receive_state; exact Hr].
Qed.

Lemma method_calls_keep_receive_state_witness :
  snd (Jack.run_cycles
         (jack_serve_all accept_names name_at
            (fst (Jack.process_events (listening (filters false false false))
                    [(0, Jack.fragment 0xF0 [1; 2])]))
            [jreq_close_port; jreq_open_port one_port_server 0 "in"])
         [[(50, Jack.fragment 3 [4; 0xF7])]])
  = snd (Jack.run_cycles
           (fst (Jack.process_events (listening (filters false false false))
                   [(0, Jack.fragment 0xF0 [1; 2])]))
           [[(50, Jack.fragment 3 [4; 0xF7])]]).
Proof.
  apply (method_calls_keep_receive_state accept_names name_at).
  - reflexivity.
  - discriminate.
  - discriminate.
Defined.

Lemma connect_port_connected srv self :
  Jack.port (fst (Jack.connect srv self)) = Jack.port self
  /\ Jack.connected_ (fst (Jack.connect srv self)) = Jack.connected_ self.
Proof.
  unfold Jack.connect. destruct (Jack.client self); [split; reflexivity|].
  destruct (Jack.client_open_ok srv); split; reflexivity.
Qed.

Lemma register_port_connected srv self name :
  Jack.connected_ (fst (Jack.register_port srv self name))
  = Jack.connected_ self
  /\ (Jack.port self <> None ->
      Jack.port (fst (Jack.register_port srv self name)) = Jack.port self).
Proof.
  unfold Jack.register_port. destruct (Jack.port self) eqn:Ep.
  - split; [reflexivity | intros _; exact Ep].
  - split; [reflexivity | congruence].
Qed.

Lemma process_event_connected self t ev :
  Jack.connected_ (fst (Jack.process_event self t ev)) = Jack.connected_ self.
Proof.
  unfold Jack.process_event.
  destruct (Jack.classify _ _ _) as [cont skip].
  destruct (skip || cont); reflexivity.
Qed.

Lemma process_events_connected events :
  forall self,
    Jack.connected_ (fst (Jack.process_events self events))
    = Jack.connected_ self.
Proof.
  induction events as [|[t ev] rest IH]; intros self.
  - reflexivity.
  - cbn [Jack.process_events].
    pose proof (process_event_connected self t ev) as H1.
    destruct (Jack.process_event self t ev) as [self1 out].
    cbn [fst] in H1. specialize (IH self1).
    destruct (Jack.process_events self1 rest) as [self2 outs].
    cbn [fst] in *. congruence.
Qed.

Lemma jack_serve_connected_has_port
    (check : string -> string -> bool * Jack.effects)
    (lookup : option (list string) -> Z -> string * Jack.effects) self r :
  jack_connected_has_port self ->
  jack_connected_has_port (jack_serve check lookup self r).
Proof.
  unfold jack_connected_has_port. intros Hinv.
  destruct r as [srv n name | srv name | | name | name | events];
    cbn [jack_serve].
  - unfold Jack.open_port. destruct (check _ name) as [ok e0].
    destruct ok; cbn [negb fst]; [|exact Hinv].
    destruct (connect_port_connected srv self) as [Hp1 Hc1].
    destruct (Jack.connect srv self) as [self1 e1]. cbn [fst] in *.
    destruct (register_port_connected srv self1 name) as [Hc2 Hp2].
    destruct (Jack.register_port srv self1 name) as [self2 e2].
    cbn [fst] in *.
    destruct (Jack.port self2) as [p|] eqn:Ep2.
    + destruct (Jack.get_port_name lookup srv self2 n) as [nm e3].
      cbn [fst Jack.set_connected Jack.port]. intros _. congruence.
    + cbn [fst]. intros Hc. rewrite Hc2, Hc1 in Hc.
      specialize (Hinv Hc). rewrite <- Hp1 in Hinv.
      specialize (Hp2 Hinv). congruence.
  - unfold Jack.open_virtual_port. destruct (check _ name) as [ok e0].
    destruct ok; cbn [negb fst]; [|exact Hinv].
    destruct (connect_port_connected srv self) as [Hp1 Hc1].
    destruct (Jack.connect srv self) as [self1 e1]. cbn [fst] in *.
    destruct (register_port_connected srv self1 name) as [Hc2 Hp2].
    destruct (Jack.register_port srv self1 name) as [self2 e2].
    cbn [fst] in *.
    destruct (Jack.port self2) as [p|] eqn:Ep2; cbn [fst].
    + intros _. congruence.
    + intros Hc. rewrite Hc2, Hc1 in Hc.
      specialize (Hinv Hc). rewrite <- Hp1 in Hinv.
      specialize (Hp2 Hinv). congruence.
  - unfold Jack.close_port. destruct (Jack.port self) eqn:Ep; cbn.
    + discriminate.
    + rewrite Ep. exact Hinv.
  - exact Hinv.
  - cbn. intros Hc. specialize (Hinv Hc).
    destruct (Jack.port self); [discriminate | congruence].
  - unfold Jack.jackProcessIn. destruct (Jack.port self) eqn:Ep.
    + rewrite process_events_connected, process_events_port, Ep. exact Hinv.
    + cbn [fst]. rewrite Ep. exact Hinv.
Qed.

(** X8.  A connected input driver always has a port.  Whatever the server
    answers and whatever the helpers return, after the constructor and any
    sequence of method calls and process cycles [connected_] implies that
    the port is registered; hence [close_port] always leaves the driver
    disconnected and without a port. *)
Theorem jack_connected_driver_has_port
    (check : string -> string -> bool * Jack.effects)
    (lookup : option (list string) -> Z -> string * Jack.effects)
    srv conf rs :
  jack_connected_has_port
    (jack_serve_all check lookup (fst (Jack.midi_in_jack_new srv conf)) rs)
  /\ Jack.connected_
       (fst (Jack.close_port
               (jack_serve_all check lookup
                  (fst (Jack.midi_in_jack_new srv conf)) rs))) = false
  /\ Jack.port
       (fst (Jack.close_port
               (jack_serve_all check lookup
                  (fst (Jack.midi_in_jack_new srv conf)) rs))) = None.
Proof.
  assert (Hinv : jack_connected_has_port
            (jack_serve_all check lookup
               (fst (Jack.midi_in_jack_new srv conf)) rs)).
  { unfold jack_serve_all.
    assert (H0 : jack_connected_has_port
                   (fst (Jack.midi_in_jack_new srv conf))).
    { unfold jack_connected_has_port, Jack.midi_in_jack_new.
      destruct (connect_port_connected srv
                  (Jack.set_client
                     (Jack.set_port (Jack.midi_in_api_new conf) None) None))
        as [_ Hc].
      rewrite Hc. cbn. discriminate. }
    revert H0. generalize (fst (Jack.midi_in_jack_new srv conf)).
    induction rs as [|r rest IH]; intros self H0; cbn [fold_left].
    - exact H0.
    - apply IH. apply jack_serve_connected_has_port. exact H0. }
  split; [exact Hinv|].
  unfold jack_connected_has_port in Hinv. unfold Jack.close_port.
  destruct (Jack.port (jack_serve_all check lookup _ rs)) eqn:Ep.
  - split; reflexivity.
  - cbn [fst]. split; [|exact Ep].
    destruct (Jack.connected_ (jack_serve_all check lookup _ rs)) eqn:Ec;
      [|reflexivity].
    exfalso. apply Hinv; reflexivity.
Qed.

(** X9.  [get_port_count] counts the MIDI output ports of the server, and
    absence is not an error: it is [0] when the driver has no client, when
    the server returns no array, and when the array is empty; otherwise it
    is the number of ports listed (below [2 ^ 31]). *)
Theorem jack_get_port_count_counts srv self :
  (Jack.client self = None -> Jack.get_port_count srv self = 0)
  /\ (Jack.output_ports srv = None -> Jack.get_port_count srv self = 0)
  /\ (Jack.output_ports srv = Some [] -> Jack.get_port_count srv self = 0)
  /\ (forall ports,
         Jack.client self <> None ->
         Jack.output_ports srv = Some ports ->
         Z.of_nat (List.length ports) < 2 ^ 31 ->
         Jack.get_port_count srv self = Z.of_nat (List.length ports)).
Proof.
  unfold Jack.get_port_count. repeat split.
  - intros H. rewrite H. reflexivity.
  - intros H. rewrite H. destruct (Jack.client self); reflexivity.
  - intros H. rewrite H. destruct (Jack.client self); reflexivity.
  - intros ports Hc Hp Hlen. rewrite Hp.
    destruct (Jack.client self); [|congruence].
    rewrite to_int_small by lia. apply to_uint_small. lia.
Qed.

Lemma jack_get_port_count_counts_witness :
  Jack.get_port_count one_port_server (listening (filters false false false))
  = Z.of_nat (List.length ["system:midi_capture_1"]).
Proof.
  apply (proj2 (proj2 (proj2 (jack_get_port_count_counts one_port_server
                                (listening (filters false false false)))))).
  - discriminate.
  - reflexivity.
  - cbn. lia.
Defined.

Lemma open_steps_configuration srv self name :
  Jack.configuration
    (fst (Jack.register_port srv (fst (Jack.connect srv self)) name))
  = Jack.configuration self.
Proof.
  destruct (register_port_receive_state srv (fst (Jack.connect srv self)) name)
    as [H _].
  destruct (connect_receive_state srv self) as [H' _]. congruence.
Qed.

(** X10.  The three outcomes of [open_port] on the input driver.  A port
    name the length check rejects stops the call before anything happens.
    Otherwise, if no port could be registered, the last report is a driver
    error and [connected_] is as it was; and if the driver has a port, it
    is connected and the last thing done is the [jack_connect] to that
    port. *)
Theorem jack_open_port_outcome
    (check : string -> string -> bool * Jack.effects)
    (lookup : option (list string) -> Z -> string * Jack.effects)
    srv self portNumber portName :
  let r := Jack.open_port check lookup srv self portNumber portName in
  let answer :=
    check (Jack.client_name (Jack.configuration self)) portName in
  (fst answer = false -> r = (self, snd answer))
  /\ (fst answer = true ->
      Jack.port (fst r) = None ->
      Jack.connected_ (fst r) = Jack.connected_ self
      /\ exists pre,
           snd r
           = pre ++ [Error driver_error
                       "midi_in_jack::open_port: JACK error creating port"])
  /\ (fst answer = true ->
      forall p,
        Jack.port (fst r) = Some p ->
        Jack.connected_ (fst r) = true
        /\ exists pre source,
             snd r
             = pre ++ [Native (Jack.jack_connect source
                                 (Jack.jack_port_name self p))]).
Proof.
  cbv zeta. unfold Jack.open_port.
  destruct (check _ portName) as [ok e0]. cbn [fst snd].
  destruct ok; cbn [negb].
  - split; [discriminate|].
    pose proof (open_steps_configuration srv self portName) as Hcfg.
    destruct (connect_port_connected srv self) as [_ Hc1].
    destruct (Jack.connect srv self) as [self1 e1]. cbn [fst] in *.
    destruct (register_port_connected srv self1 portName) as [Hc2 _].
    destruct (Jack.register_port srv self1 portName) as [self2 e2].
    cbn [fst] in *.
    destruct (Jack.port self2) as [p|] eqn:Ep2.
    + destruct (Jack.get_port_name lookup srv self2 portNumber)
        as [nm e3].
      cbn [fst snd Jack.set_connected Jack.port Jack.connected_].
      split.
      * intros _ H. congruence.
      * intros _ p0 H. split; [reflexivity|].
        exists (e0 ++ e1 ++ e2 ++ e3), nm.
        rewrite <- !app_assoc. unfold Jack.jack_port_name.
        rewrite Hcfg. congruence.
    + cbn [fst snd]. split.
      * intros _ _. split; [congruence|].
        exists (e0 ++ e1 ++ e2). rewrite <- !app_assoc. reflexivity.
      * intros _ p0 H. congruence.
  - split; [reflexivity|]. split; discriminate.
Qed.

Lemma jack_open_port_outcome_witness :
  Jack.connected_
    (fst (Jack.open_port accept_names name_at one_port_server
            (fst (Jack.midi_in_jack_new one_port_server
                    (filters false false false))) 0 "in")) = true
  /\ exists pre source,
       snd (Jack.open_port accept_names name_at one_port_server
              (fst (Jack.midi_in_jack_new one_port_server
                      (filters false false false))) 0 "in")
       = pre ++ [Native (Jack.jack_connect source
                           (Jack.jack_port_name
                              (fst (Jack.midi_in_jack_new one_port_server
                                      (filters false false false))) "in"))].
Proof.
  apply (proj2 (proj2 (jack_open_port_outcome accept_names name_at
                         one_port_server
                         (fst (Jack.midi_in_jack_new one_port_server
                                 (filters false false false))) 0 "in"))).
  - reflexivity.
  - reflexivity.
Defined.

(** X11.  [open_virtual_port] only ever creates the port.  It leaves
    [connected_] as it was; and once it has left the driver with a client
    and a port, calling it again with an accepted name registers nothing
    and changes nothing: the port keeps the name it was created with. *)
Theorem jack_open_virtual_port_registers_once
    (check : string -> string -> bool * Jack.effects)
    srv srv' self portName portName' :
  let self1 := fst (Jack.open_virtual_port check srv self portName) in
  Jack.connected_ self1 = Jack.connected_ self
  /\ (Jack.client self1 <> None ->
      Jack.port self1 <> None ->
      fst (check (Jack.client_name (Jack.configuration self1)) portName')
      = true ->
      Jack.open_virtual_port check srv' self1 portName'
      = (self1,
         snd (check (Jack.client_name (Jack.configuration self1))
                portName'))).
Proof.
  cbv zeta. split.
  - unfold Jack.open_virtual_port.
    destruct (check _ portName) as [ok e0].
    destruct ok; cbn [negb]; [|reflexivity].
    destruct (connect_port_connected srv self) as [_ Hc1].
    destruct (Jack.connect srv self) as [self1 e1]. cbn [fst] in *.
    destruct (register_port_connected srv self1 portName) as [Hc2 _].
    destruct (Jack.register_port srv self1 portName) as [self2 e2].
    cbn [fst] in *.
    destruct (Jack.port self2); cbn [fst]; congruence.
  - generalize (fst (Jack.open_virtual_port check srv self portName)).
    intros self1 Hcl Hp Hok.
    unfold Jack.open_virtual_port at 1.
    destruct (check _ portName') as [ok e0]. cbn [fst snd] in *. subst ok.
    cbn [negb]. unfold Jack.connect, Jack.register_port.
    destruct (Jack.client self1) eqn:Ec; [|congruence].
    destruct (Jack.port self1) eqn:Ep; [|congruence].
    rewrite Ep. rewrite !app_nil_r. reflexivity.
Qed.

Lemma jack_open_virtual_port_registers_once_witness :
  Jack.open_virtual_port accept_names one_port_server
    (fst (Jack.open_virtual_port accept_names one_port_server
            (fst (Jack.midi_in_jack_new one_port_server
                    (filters false false false))) "first"))
    "second"
  = (fst (Jack.open_virtual_port accept_names one_port_server
            (fst (Jack.midi_in_jack_new one_port_server
                    (filters false false false))) "first"),
     []).
Proof.
  apply (proj2 (jack_open_virtual_port_registers_once accept_names
                  one_port_server one_port_server
                  (fst (Jack.midi_in_jack_new one_port_server
                          (filters false false false)))
                  "first" "second")).
  - discriminate.
  - discriminate.
  - reflexivity.
Defined.

(** * Further properties of the output driver's life cycle *)

(** The branches of [open_port] on a driver that is not connected. *)
Lemma open_port_branches s self portNumber portName :
  Alsa.connected_ self = false ->
  let r := Alsa.open_port s self portNumber portName in
  (Alsa.connected_ (fst r) = true
   /\ forallb is_native (snd r) = true
   /\ 0 <= Alsa.vport (fst r)
   /\ exists pinfo,
        Alsa.port_info s Alsa.WRITE_CAPS (to_int portNumber) = Some pinfo
        /\ Alsa.subscription (fst r)
           = Alsa.sub_alloc (sender_of s (Alsa.vport (fst r)))
               (receiver_of pinfo))
  \/ (Alsa.connected_ (fst r) = false
      /\ exists pre kind msg,
           snd r = pre ++ [Error kind msg]
           /\ forallb is_native pre = true).
Proof.
  intros Hc. cbv zeta. unfold Alsa.open_port. rewrite Hc.
  destruct (Alsa.get_port_count s <? 1).
  { right. split; [exact Hc|]. exists [], no_devices_found_error.
    eexists. split; reflexivity. }
  destruct (Alsa.port_info s Alsa.WRITE_CAPS (to_int portNumber))
    as [pinfo|] eqn:Ei.
  2:{ right. split; [exact Hc|]. exists [], invalid_parameter_error.
      eexists. split; reflexivity. }
  assert (Hcreate :
    exists self1 e1,
      Alsa.create_vport s self portName = (self1, e1)
      /\ Alsa.connected_ self1 = false
      /\ forallb is_native e1 = true).
  { unfold Alsa.create_vport. destruct (Alsa.vport self <? 0).
    - do 2 eexists. split; [reflexivity|]. split; [exact Hc|reflexivity].
    - do 2 eexists. split; [reflexivity|]. split; [exact Hc|reflexivity]. }
  destruct Hcreate as (self1 & e1 & Hcr & Hc1 & He1). rewrite Hcr.
  destruct (Alsa.vport self1 <? 0) eqn:Ev.
  { right. cbn [fst snd]. split; [exact Hc1|].
    exists e1, driver_error. eexists. split; [reflexivity | exact He1]. }
  apply Z.ltb_ge in Ev.
  destruct (Alsa.port_subscribe_malloc_result s <? 0).
  { right. cbn [fst snd Alsa.connected_ Alsa.set_subscription].
    split; [exact Hc1|].
    exists (e1 ++ [Native Alsa.snd_seq_port_subscribe_malloc;
                   Native Alsa.snd_seq_port_subscribe_free]),
      driver_error.
    eexists. split.
    - rewrite <- app_assoc. reflexivity.
    - rewrite forallb_app, He1. reflexivity. }
  destruct (negb (Alsa.subscribe_port_result s =? 0)).
  { right. cbn [fst snd Alsa.connected_ Alsa.set_subscription].
    split; [exact Hc1|].
    eexists (e1 ++ [Native Alsa.snd_seq_port_subscribe_malloc;
                    Native (Alsa.snd_seq_subscribe_port _ _);
                    Native Alsa.snd_seq_port_subscribe_free]),
      driver_error.
    eexists. split.
    - rewrite <- app_assoc. reflexivity.
    - rewrite forallb_app, He1. reflexivity. }
  left. cbn [fst snd Alsa.connected_ Alsa.set_connected Alsa.vport
             Alsa.set_subscription Alsa.subscription].
  split; [reflexivity|]. split.
  { rewrite forallb_app, He1. reflexivity. }
  split; [exact Ev|]. exists pinfo. split; reflexivity.
Qed.

(** [open_port] when nothing fails: the registry is not empty and has an
    entry at the position, the local port exists or can be created, and the
    subscription can be allocated and made. *)
Lemma open_port_succeeds s self portNumber portName pinfo :
  Alsa.connected_ self = false ->
  1 <= Alsa.get_port_count s ->
  Alsa.port_info s Alsa.WRITE_CAPS (to_int portNumber) = Some pinfo ->
  0 <= Alsa.vport (fst (Alsa.create_vport s self portName)) ->
  0 <= Alsa.port_subscribe_malloc_result s ->
  Alsa.subscribe_port_result s = 0 ->
  Alsa.open_port s self portNumber portName
  = (Alsa.set_connected
       (Alsa.set_subscription (fst (Alsa.create_vport s self portName))
          (Alsa.sub_alloc
             (sender_of s
                (Alsa.vport (fst (Alsa.create_vport s self portName))))
             (receiver_of pinfo)))
       true,
     snd (Alsa.create_vport s self portName)
     ++ [Native Alsa.snd_seq_port_subscribe_malloc;
         Native (Alsa.snd_seq_subscribe_port
                   (sender_of s
                      (Alsa.vport (fst (Alsa.create_vport s self portName))))
                   (receiver_of pinfo))]).
Proof.
  intros Hc Hn Hi Hv Hm Hs. unfold Alsa.open_port. rewrite Hc, Hi.
  replace (Alsa.get_port_count s <? 1) with false
    by (symmetry; apply Z.ltb_ge; exact Hn).
  destruct (Alsa.create_vport s self portName) as [self1 e1].
  cbn [fst snd] in *.
  replace (Alsa.vport self1 <? 0) with false
    by (symmetry; apply Z.ltb_ge; exact Hv).
  replace (Alsa.port_subscribe_malloc_result s <? 0) with false
    by (symmetry; apply Z.ltb_ge; exact Hm).
  rewrite Hs. reflexivity.
Qed.

(** X12.  The outcomes of [open_port] on an output driver that is not
    connected.  When nothing fails (the registry has an entry at the
    position, the local port exists or is created with identifier
    [port_id], the subscription is allocated and made) the driver ends
    connected, has reported nothing, and its last act is the subscription
    it now holds: from its own client and local port to the entry found,
    each identifier as the [unsigned char] of the address keeps it (port 300
    is subscribed as 44).  In every other case it ends not connected and
    the only report is an error, made last. *)
Theorem alsa_open_port_outcome s self portNumber portName :
  Alsa.connected_ self = false ->
  let r := Alsa.open_port s self portNumber portName in
  let port_id :=
    if Alsa.vport self <? 0 then to_int (Alsa.create_simple_port_result s)
    else Alsa.vport self in
  (forall pinfo,
      1 <= Alsa.get_port_count s ->
      Alsa.port_info s Alsa.WRITE_CAPS (to_int portNumber) = Some pinfo ->
      0 <= port_id ->
      0 <= Alsa.port_subscribe_malloc_result s ->
      Alsa.subscribe_port_result s = 0 ->
      Alsa.connected_ (fst r) = true
      /\ Alsa.vport (fst r) = port_id
      /\ Alsa.subscription (fst r)
         = Alsa.sub_alloc (sender_of s port_id) (receiver_of pinfo)
      /\ forallb is_native (snd r) = true
      /\ exists pre,
           snd r
           = pre ++ [Native (Alsa.snd_seq_subscribe_port
                               (sender_of s port_id) (receiver_of pinfo))])
  /\ (Alsa.connected_ (fst r) = false ->
      exists pre kind msg,
        snd r = pre ++ [Error kind msg]
        /\ forallb is_native pre = true)
  /\ (Alsa.connected_ (fst r) = true ->
      1 <= Alsa.get_port_count s
      /\ 0 <= port_id
      /\ 0 <= Alsa.port_subscribe_malloc_result s
      /\ Alsa.subscribe_port_result s = 0
      /\ exists pinfo,
           Alsa.port_info s Alsa.WRITE_CAPS (to_int portNumber) = Some pinfo).
Proof.
  intros Hc. cbv zeta.
  assert (Hid : Alsa.vport (fst (Alsa.create_vport s self portName))
                = if Alsa.vport self <? 0
                  then to_int (Alsa.create_simple_port_result s)
                  else Alsa.vport self).
  { unfold Alsa.create_vport. destruct (Alsa.vport self <? 0); reflexivity. }
  assert (He1 : forallb is_native (snd (Alsa.create_vport s self portName))
                = true).
  { unfold Alsa.create_vport. destruct (Alsa.vport self <? 0); reflexivity. }
  split; [|split].
  - intros pinfo Hn Hi Hv Hm Hs. rewrite <- Hid in *.
    rewrite (open_port_succeeds s self portNumber portName pinfo
               Hc Hn Hi Hv Hm Hs).
    cbn [fst snd Alsa.connected_ Alsa.set_connected Alsa.vport
         Alsa.set_subscription Alsa.subscription].
    split; [reflexivity|]. split; [reflexivity|]. split; [reflexivity|].
    split.
    + rewrite forallb_app, He1. reflexivity.
    + eexists (_ ++ [_]). rewrite <- app_assoc. reflexivity.
  - intros Hd.
    destruct (open_port_branches s self portNumber portName Hc)
      as [(Hcon & _) | (_ & H)]; [congruence | exact H].
  - rewrite <- Hid. unfold Alsa.open_port. rewrite Hc.
    destruct (Alsa.get_port_count s <? 1) eqn:En;
      [cbn [fst]; congruence|]. apply Z.ltb_ge in En.
    destruct (Alsa.port_info s Alsa.WRITE_CAPS (to_int portNumber))
      as [pinfo|]; [|cbn [fst]; congruence].
    assert (Hc1 : Alsa.connected_ (fst (Alsa.create_vport s self portName))
                  = false).
    { unfold Alsa.create_vport. destruct (Alsa.vport self <? 0); exact Hc. }
    destruct (Alsa.create_vport s self portName) as [self1 e1].
    cbn [fst snd] in *.
    destruct (Alsa.vport self1 <? 0) eqn:Ev; [cbn [fst]; congruence|].
    apply Z.ltb_ge in Ev.
    destruct (Alsa.port_subscribe_malloc_result s <? 0) eqn:Em;
      [cbn; congruence|]. apply Z.ltb_ge in Em.
    destruct (Alsa.subscribe_port_result s =? 0) eqn:Es;
      cbn [negb]; [|cbn; congruence]. apply Z.eqb_eq in Es.
    intros _. repeat split; try assumption. exists pinfo. reflexivity.
Qed.

Lemma alsa_open_port_outcome_witness :
  Alsa.connected_
    (fst (Alsa.open_port sequencer_port_300 fresh_out 0 "out")) = true
  /\ Alsa.vport (fst (Alsa.open_port sequencer_port_300 fresh_out 0 "out"))
     = 300
  /\ Alsa.subscription
       (fst (Alsa.open_port sequencer_port_300 fresh_out 0 "out"))
     = Alsa.sub_alloc
         {| Alsa.addr_client := 128; Alsa.addr_port := 44 |}
         {| Alsa.addr_client := 129; Alsa.addr_port := 0 |}
  /\ forallb is_native
       (snd (Alsa.open_port sequencer_port_300 fresh_out 0 "out")) = true
  /\ exists pre,
       snd (Alsa.open_port sequencer_port_300 fresh_out 0 "out")
       = pre ++ [Native (Alsa.snd_seq_subscribe_port
                           {| Alsa.addr_client := 128; Alsa.addr_port := 44 |}
                           {| Alsa.addr_client := 129;
                              Alsa.addr_port := 0 |})].
Proof.
  apply (proj1 (alsa_open_port_outcome sequencer_port_300 fresh_out 0 "out"
                  eq_refl) synth_port).
  - vm_compute. discriminate.
  - reflexivity.
  - vm_compute. discriminate.
  - vm_compute. discriminate.
  - reflexivity.
Defined.

Lemma count_calls_app p e1 e2 :
  count_calls p (e1 ++ e2) = count_calls p e1 + count_calls p e2.
Proof.
  unfold count_calls. rewrite filter_app, length_app. lia.
Qed.

Lemma send_loop_effects s self message size :
  forall fuel offset e,
    Alsa.send_loop fuel s self message size offset = Some e ->
    forallb is_loop_effect e = true.
Proof.
  induction fuel as [|fuel IH]; intros offset e; cbn [Alsa.send_loop].
  - destruct (offset <? size); intros H; inversion H. reflexivity.
  - destruct (offset <? size); [|intros H; inversion H; reflexivity].
    destruct (Alsa.encode_result s _ _) as [result type].
    destruct (result <? 0); [intros H; inversion H; reflexivity|].
    destruct (type =? Alsa.SND_SEQ_EVENT_NONE);
      [intros H; inversion H; reflexivity|].
    destruct (Alsa.event_output_result s _ _ <? 0);
      [intros H; inversion H; reflexivity|].
    destruct (Alsa.send_loop fuel s self message size _) as [e'|] eqn:E;
      intros H; inversion H. cbn [forallb is_loop_effect andb].
    eapply IH. exact E.
Qed.

Lemma count_calls_loop p e :
  (forall ev, p (Alsa.snd_seq_event_output ev) = false) ->
  p Alsa.snd_seq_drain_output = false ->
  forallb is_loop_effect e = true ->
  count_calls p e = 0.
Proof.
  intros Ho Hd. unfold count_calls.
  induction e as [|x e IH]; intros H; [reflexivity|].
  cbn [forallb] in H. apply andb_prop in H as [Hx He].
  specialize (IH He). cbn [filter].
  destruct x as [msg | kind msg | c]; cbn [is_loop_effect] in Hx;
    try discriminate; try exact IH.
  destruct c; try discriminate; rewrite ?Ho, ?Hd; exact IH.
Qed.

(** What [send_message] does besides running the loop. *)
Lemma send_message_shape fuel s self message self' e :
  Alsa.send_message fuel s self message = Some (self', e) ->
  Alsa.connected_ self' = Alsa.connected_ self
  /\ Alsa.vport self' = Alsa.vport self
  /\ Alsa.subscription self' = Alsa.subscription self
  /\ exists e0 e1,
       e = e0 ++ e1
       /\ (e0 = []
           \/ e0 = [Native (Alsa.snd_midi_event_resize_buffer
                              (Z.of_nat (List.length message)))])
       /\ (forallb is_loop_effect e1 = true
           \/ exists msg, e1 = [Error driver_error msg]).
Proof.
  unfold Alsa.send_message, Alsa.resize_buffer.
  destruct (Z.of_nat (List.length message) >? Alsa.bufferSize self).
  - destruct (Alsa.resize_buffer_result s =? 0) eqn:E;
      cbn [negb Z.eqb]; rewrite ?E; cbn [negb].
    + destruct (Alsa.send_loop _ _ _ _ _ _) as [e'|] eqn:El;
        [|discriminate].
      intros H. injection H as <- <-.
      repeat split. eexists [_], e'. split; [reflexivity|].
      split; [right; reflexivity|]. left.
      eapply send_loop_effects. exact El.
    + intros H. injection H as <- <-. repeat split.
      eexists [_], [_]. split; [reflexivity|].
      split; [right; reflexivity|]. right. eexists. reflexivity.
  - destruct (Alsa.send_loop _ _ _ _ _ _) as [e'|] eqn:El; [|discriminate].
    intros H. injection H as <- <-.
    repeat split. exists [], e'. split; [reflexivity|].
    split; [left; reflexivity|]. left.
    eapply send_loop_effects. exact El.
Qed.

Lemma send_message_count p fuel s self message self' e :
  (forall ev, p (Alsa.snd_seq_event_output ev) = false) ->
  p Alsa.snd_seq_drain_output = false ->
  (forall n, p (Alsa.snd_midi_event_resize_buffer n) = false) ->
  Alsa.send_message fuel s self message = Some (self', e) ->
  count_calls p e = 0.
Proof.
  intros Ho Hd Hr H.
  destruct (send_message_shape _ _ _ _ _ _ H)
    as (_ & _ & _ & e0 & e1 & -> & H0 & H1).
  rewrite count_calls_app.
  assert (count_calls p e0 = 0) as ->.
  { destruct H0 as [-> | ->]; unfold count_calls; cbn [filter];
      rewrite ?Hr; reflexivity. }
  destruct H1 as [H1 | [msg ->]].
  - rewrite (count_calls_loop p e1 Ho Hd H1). reflexivity.
  - reflexivity.
Qed.

(** Splits [open_port], [open_virtual_port] and [close_port] into their
    branches. *)
Ltac lifecycle_cases self s :=
  unfold Alsa.open_port, Alsa.open_virtual_port, Alsa.close_port,
    Alsa.create_vport;
  destruct (Alsa.connected_ self) eqn:?;
  try destruct (Alsa.get_port_count s <? 1) eqn:?;
  try destruct (Alsa.port_info s Alsa.WRITE_CAPS _) eqn:?;
  try destruct (Alsa.vport self <? 0) eqn:?;
  cbn [Alsa.vport Alsa.set_vport fst snd andb];
  try destruct (to_int (Alsa.create_simple_port_result s) <? 0) eqn:?;
  try destruct (Alsa.port_subscribe_malloc_result s <? 0) eqn:?;
  try destruct (negb (Alsa.subscribe_port_result s =? 0)) eqn:?;
  cbn [fst snd].

(** Uses the values found for [connected_ self] and [vport self <? 0] and
    computes. *)
Ltac use_case self :=
  cbn [Alsa.connected_ Alsa.vport Alsa.subscription Alsa.coder
       Alsa.bufferSize Alsa.set_vport Alsa.set_subscription
       Alsa.set_connected Alsa.set_coder Alsa.set_bufferSize fst snd];
  try match goal with
      | H : Alsa.connected_ self = _ |- _ => rewrite !H
      end;
  try match goal with
      | H : (Alsa.vport self <? 0) = _ |- _ => rewrite !H
      end.

Ltac finish_case self :=
  use_case self; use_case self; use_case self; use_case self.

Lemma serve_balance self r self' e :
  serve self r = Some (self', e) ->
  count_calls is_subscribe_malloc e + connections self
  = count_calls is_subscribe_free e + connections self'.
Proof.
  destruct r as [s n name | s name | | fuel s message]; cbn [serve];
    intros H.
  - injection H as H.
    rewrite (surjective_pairing (Alsa.open_port _ _ _ _)) in H.
    injection H as <- <-. unfold connections.
    lifecycle_cases self s; finish_case self; cbn; reflexivity.
  - injection H as H.
    rewrite (surjective_pairing (Alsa.open_virtual_port _ _ _)) in H.
    injection H as <- <-. unfold connections.
    lifecycle_cases self s; finish_case self; cbn; reflexivity.
  - injection H as H. rewrite (surjective_pairing (Alsa.close_port _)) in H.
    injection H as <- <-. unfold connections.
    lifecycle_cases self self; finish_case self; cbn; reflexivity.
  - destruct (send_message_shape _ _ _ _ _ _ H) as (Hc & _).
    rewrite (send_message_count is_subscribe_malloc _ _ _ _ _ _
               (fun _ => eq_refl) eq_refl (fun _ => eq_refl) H).
    rewrite (send_message_count is_subscribe_free _ _ _ _ _ _
               (fun _ => eq_refl) eq_refl (fun _ => eq_refl) H).
    unfold connections. rewrite Hc. reflexivity.
Qed.

Lemma serve_subscription_live self r self' e :
  subscription_live self ->
  serve self r = Some (self', e) ->
  subscription_live self'.
Proof.
  intros Hinv.
  destruct r as [s n name | s name | | fuel s message]; cbn [serve];
    intros H.
  - injection H as H. apply (f_equal fst) in H. cbn [fst] in H. subst self'.
    destruct (Alsa.connected_ self) eqn:Hc.
    + rewrite alsa_open_port_connected by assumption. exact Hinv.
    + destruct (open_port_branches s self n name Hc)
        as [(_ & _ & Hv & pinfo & _ & Hsub) | (Hd & _)].
      * intros _. split; [exact Hv|]. do 2 eexists.
        split; [exact Hsub | reflexivity].
      * intros Hcon. congruence.
  - injection H as H. apply (f_equal fst) in H. cbn [fst] in H. subst self'.
    unfold Alsa.open_virtual_port, Alsa.create_vport.
    destruct (Alsa.vport self <? 0) eqn:Ev; cbn [andb].
    + assert (Hc : Alsa.connected_ self = false).
      { destruct (Alsa.connected_ self) eqn:Hc; [|reflexivity].
        destruct (Hinv Hc) as [Hv _]. apply Z.ltb_lt in Ev. lia. }
      cbn [Alsa.vport Alsa.set_vport].
      destruct (to_int _ <? 0); cbn [fst]; intros Hcon;
        cbn in Hcon; congruence.
    + exact Hinv.
  - injection H as H. apply (f_equal fst) in H. cbn [fst] in H. subst self'.
    unfold Alsa.close_port. destruct (Alsa.connected_ self) eqn:Hc.
    + intros Hcon. cbn in Hcon. discriminate.
    + exact Hinv.
  - destruct (send_message_shape _ _ _ _ _ _ H) as (Hc & Hv & Hs & _).
    unfold subscription_live. rewrite Hc, Hv, Hs. exact Hinv.
Qed.

(** X13.  A connected output driver holds a live subscription.  Over any
    sequence of [open_port], [open_virtual_port], [close_port] and
    [send_message] requests, whatever the native calls answer, [connected_]
    implies that the local port exists and that [subscription] is an
    allocated subscription whose sender port is the identifier of that port
    as an [unsigned char] ([vport mod 256]): the subscription that
    [close_port] hands to [snd_seq_unsubscribe_port] is never null or
    already freed. *)
Theorem alsa_connected_driver_is_subscribed rs :
  forall self self',
    subscription_live self ->
    serve_all self rs = Some self' ->
    subscription_live self'.
Proof.
  induction rs as [|r rest IH]; intros self self' Hinv H; cbn in H.
  - injection H as <-. exact Hinv.
  - destruct (serve self r) as [[self1 e]|] eqn:E; [|discriminate].
    apply (IH self1 self'); [|exact H].
    eapply serve_subscription_live; eassumption.
Qed.

Lemma alsa_connected_driver_is_subscribed_witness :
  0 <= Alsa.vport (fst (Alsa.open_port sequencer_port_300 fresh_out 0 "out"))
  /\ exists sender dest,
       Alsa.subscription
         (fst (Alsa.open_port sequencer_port_300 fresh_out 0 "out"))
       = Alsa.sub_alloc sender dest
       /\ Alsa.addr_port sender
          = to_uchar
              (Alsa.vport
                 (fst (Alsa.open_port sequencer_port_300 fresh_out 0 "out"))).
Proof.
  apply (alsa_connected_driver_is_subscribed
           [req_open_port sequencer_port_300 0 "out"]
           fresh_out
           (fst (Alsa.open_port sequencer_port_300 fresh_out 0 "out"))).
  - intros H. discriminate.
  - reflexivity.
  - reflexivity.
Defined.

(** On that driver the local port has the identifier 300 and the
    subscription names it as 44. *)
Lemma port_300_subscribed_as_44 :
  Alsa.connected_ (fst (Alsa.open_port sequencer_port_300 fresh_out 0 "out"))
  = true
  /\ Alsa.vport (fst (Alsa.open_port sequencer_port_300 fresh_out 0 "out"))
     = 300
  /\ Alsa.subscription
       (fst (Alsa.open_port sequencer_port_300 fresh_out 0 "out"))
     = Alsa.sub_alloc
         {| Alsa.addr_client := 128; Alsa.addr_port := 44 |}
         {| Alsa.addr_client := 129; Alsa.addr_port := 0 |}.
Proof. repeat split. Qed.

(** X14.  Subscription objects are neither leaked nor freed twice.  Over any
    sequence of requests that return, the calls of
    [snd_seq_port_subscribe_malloc] and of [snd_seq_port_subscribe_free]
    differ exactly by the subscription a connected driver holds; after a
    final [close_port], which is what the destructor calls first, a driver
    that started unconnected has made as many of the one as of the
    other. *)
Theorem alsa_subscriptions_balanced rs :
  forall self self' e,
    serve_trace self rs = Some (self', e) ->
    count_calls is_subscribe_malloc e + connections self
    = count_calls is_subscribe_free e + connections self'
    /\ (Alsa.connected_ self = false ->
        count_calls is_subscribe_malloc (e ++ snd (Alsa.close_port self'))
        = count_calls is_subscribe_free (e ++ snd (Alsa.close_port self'))).
Proof.
  assert (Hbal : forall rs self self' e,
             serve_trace self rs = Some (self', e) ->
             count_calls is_subscribe_malloc e + connections self
             = count_calls is_subscribe_free e + connections self').
  { clear rs. induction rs as [|r rest IH]; intros self self' e H;
      cbn in H.
    - injection H as <- <-. reflexivity.
    - destruct (serve self r) as [[self1 e1]|] eqn:E; [|discriminate].
      destruct (serve_trace self1 rest) as [[self2 e2]|] eqn:E2;
        [|discriminate].
      injection H as <- <-. rewrite !count_calls_app.
      pose proof (serve_balance _ _ _ _ E).
      pose proof (IH _ _ _ E2). lia. }
  intros self self' e H. pose proof (Hbal _ _ _ _ H) as Hb.
  split; [exact Hb|]. intros Hc.
  rewrite !count_calls_app. unfold connections in Hb. rewrite Hc in Hb.
  unfold Alsa.close_port.
  destruct (Alsa.connected_ self'); cbn [snd]; unfold count_calls at 2 4;
    cbn; lia.
Qed.

Lemma alsa_subscriptions_balanced_witness :
  count_calls is_subscribe_malloc
    (snd (Alsa.open_port (sequencer [synth_port]) fresh_out 0 "out")
     ++ snd (Alsa.close_port connected_out))
  = count_calls is_subscribe_free
      (snd (Alsa.open_port (sequencer [synth_port]) fresh_out 0 "out")
       ++ snd (Alsa.close_port connected_out)).
Proof.
  apply (proj2 (alsa_subscriptions_balanced
                  [req_open_port (sequencer [synth_port]) 0 "out"]
                  fresh_out connected_out
                  (snd (Alsa.open_port (sequencer [synth_port]) fresh_out 0
                          "out"))
                  eq_refl)).
  reflexivity.
Defined.

Lemma serve_keeps_vport self r self' e :
  0 <= Alsa.vport self ->
  serve self r = Some (self', e) ->
  Alsa.vport self' = Alsa.vport self
  /\ count_calls is_create_port e = 0.
Proof.
  intros Hv.
  assert (Ev : (Alsa.vport self <? 0) = false) by (apply Z.ltb_ge; exact Hv).
  destruct r as [s n name | s name | | fuel s message]; cbn [serve];
    intros H.
  - injection H as H.
    rewrite (surjective_pairing (Alsa.open_port _ _ _ _)) in H.
    injection H as <- <-.
    unfold Alsa.open_port, Alsa.create_vport. rewrite Ev.
    destruct (Alsa.connected_ self); [split; reflexivity|].
    destruct (Alsa.get_port_count s <? 1); [split; reflexivity|].
    destruct (Alsa.port_info _ _ _); [|split; reflexivity].
    rewrite Ev.
    destruct (Alsa.port_subscribe_malloc_result s <? 0);
      [split; reflexivity|].
    destruct (negb _); split; reflexivity.
  - injection H as H.
    rewrite (surjective_pairing (Alsa.open_virtual_port _ _ _)) in H.
    injection H as <- <-.
    unfold Alsa.open_virtual_port, Alsa.create_vport. rewrite Ev.
    split; reflexivity.
  - injection H as H. rewrite (surjective_pairing (Alsa.close_port _)) in H.
    injection H as <- <-. unfold Alsa.close_port.
    destruct (Alsa.connected_ self); split; reflexivity.
  - destruct (send_message_shape _ _ _ _ _ _ H) as (_ & Hvp & _).
    split; [exact Hvp|].
    exact (send_message_count is_create_port _ _ _ _ _ _
             (fun _ => eq_refl) eq_refl (fun _ => eq_refl) H).
Qed.

(** X15.  The local port is created once.  As soon as the driver has a
    local port ([vport >= 0]), no sequence of requests calls
    [snd_seq_create_simple_port] again or changes [vport]: [close_port]
    keeps the port, and a later [open_port] or [open_virtual_port] reuses it
    and ignores the name it is given. *)
Theorem alsa_local_port_created_once rs :
  forall self self' e,
    0 <= Alsa.vport self ->
    serve_trace self rs = Some (self', e) ->
    Alsa.vport self' = Alsa.vport self
    /\ count_calls is_create_port e = 0.
Proof.
  induction rs as [|r rest IH]; intros self self' e Hv H; cbn in H.
  - injection H as <- <-. split; reflexivity.
  - destruct (serve self r) as [[self1 e1]|] eqn:E; [|discriminate].
    destruct (serve_trace self1 rest) as [[self2 e2]|] eqn:E2;
      [|discriminate].
    injection H as <- <-.
    destruct (serve_keeps_vport _ _ _ _ Hv E) as [Hv1 Hc1].
    destruct (IH self1 self2 e2) as [Hv2 Hc2];
      [rewrite Hv1; exact Hv | exact E2 |].
    rewrite count_calls_app. split; [congruence | lia].
Qed.

Lemma alsa_local_port_created_once_witness :
  Alsa.vport
    (fst (Alsa.open_port (sequencer [synth_port])
            (fst (Alsa.close_port connected_out)) 0 "other"))
  = Alsa.vport connected_out
  /\ count_calls is_create_port
       (snd (Alsa.close_port connected_out)
        ++ snd (Alsa.open_port (sequencer [synth_port])
                  (fst (Alsa.close_port connected_out)) 0 "other"))
     = 0.
Proof.
  apply (alsa_local_port_created_once
           [req_close_port; req_open_port (sequencer [synth_port]) 0 "other"]
           connected_out).
  - vm_compute. discriminate.
  - reflexivity.
Defined.

Lemma serve_capacity_in_sync self r self' e :
  capacity_in_sync self ->
  resize_succeeds r ->
  serve self r = Some (self', e) ->
  capacity_in_sync self'.
Proof.
  unfold capacity_in_sync. intros Hinv.
  destruct r as [s n name | s name | | fuel s message];
    cbn [serve resize_succeeds]; intros Hr H.
  - injection H as H. apply (f_equal fst) in H. cbn [fst] in H. subst self'.
    lifecycle_cases self s; finish_case self; exact Hinv.
  - injection H as H. apply (f_equal fst) in H. cbn [fst] in H. subst self'.
    lifecycle_cases self s; finish_case self; exact Hinv.
  - injection H as H. apply (f_equal fst) in H. cbn [fst] in H. subst self'.
    lifecycle_cases self self; finish_case self; exact Hinv.
  - destruct Hr as [Hlen Hres]. revert H.
    unfold Alsa.send_message, Alsa.resize_buffer. rewrite Hres.
    cbn [Z.eqb negb].
    destruct (Z.of_nat (List.length message) >? Alsa.bufferSize self).
    + destruct (Alsa.send_loop _ _ _ _ _ _); [|discriminate].
      intros H. injection H as <- _. cbn. rewrite Hinv.
      rewrite to_uint_small by lia. reflexivity.
    + destruct (Alsa.send_loop _ _ _ _ _ _); [|discriminate].
      intros H. injection H as <- _. exact Hinv.
Qed.

(** X16.  As long as no native resize fails, the recorded capacity is the
    capacity the encoder is bound to: starting from a driver where
    [bufferSize] equals the encoder's buffer size (as after construction),
    any sequence of requests whose messages are shorter than [2 ^ 32] bytes
    and whose resizes succeed leaves the two equal. *)
Theorem alsa_capacity_stays_in_sync rs :
  forall self self',
    capacity_in_sync self ->
    Forall resize_succeeds rs ->
    serve_all self rs = Some self' ->
    capacity_in_sync self'.
Proof.
  induction rs as [|r rest IH]; intros self self' Hinv Hrs H; cbn in H.
  - injection H as <-. exact Hinv.
  - inversion Hrs as [|? ? Hr Hrest]; subst.
    destruct (serve self r) as [[self1 e]|] eqn:E; [|discriminate].
    apply (IH self1 self'); [|exact Hrest | exact H].
    eapply serve_capacity_in_sync; eassumption.
Qed.

Lemma alsa_capacity_stays_in_sync_witness :
  capacity_in_sync
    (Alsa.set_coder (Alsa.set_bufferSize fresh_out 40)
       (Some {| Alsa.bufsize := 40 |})).
Proof.
  apply (alsa_capacity_stays_in_sync
           [req_send_message 41 (sequencer []) (repeat 0 40); req_close_port]
           fresh_out).
  - reflexivity.
  - constructor; [split; [cbn; lia | reflexivity]|].
    constructor; [exact I | constructor].
  - reflexivity.
Defined.

(** X17.  Opening and closing is a round trip.  On a driver that is not
    connected and holds no subscription, a successful [open_port] followed
    by [close_port] releases the subscription and gives back the driver as
    it was, except that it now has its local port. *)
Theorem alsa_open_close_round_trip s self portNumber portName :
  Alsa.connected_ self = false ->
  Alsa.subscription self = Alsa.sub_null ->
  Alsa.connected_ (fst (Alsa.open_port s self portNumber portName)) = true ->
  Alsa.close_port (fst (Alsa.open_port s self portNumber portName))
  = (fst (Alsa.create_vport s self portName),
     [Native Alsa.snd_seq_unsubscribe_port;
      Native Alsa.snd_seq_port_subscribe_free]).
Proof.
  intros Hc Hs. unfold Alsa.open_port. rewrite Hc.
  destruct (Alsa.get_port_count s <? 1); [cbn [fst]; congruence|].
  destruct (Alsa.port_info _ _ _); [|cbn [fst]; congruence].
  assert (Hcr : Alsa.connected_ (fst (Alsa.create_vport s self portName))
                = false
                /\ Alsa.subscription (fst (Alsa.create_vport s self portName))
                   = Alsa.sub_null).
  { unfold Alsa.create_vport. destruct (Alsa.vport self <? 0);
      split; assumption. }
  destruct Hcr as [Hc1 Hs1].
  destruct (Alsa.create_vport s self portName) as [self1 e1].
  cbn [fst] in *.
  destruct (Alsa.vport self1 <? 0); [cbn [fst]; congruence|].
  destruct (Alsa.port_subscribe_malloc_result s <? 0);
    [cbn; congruence|].
  destruct (negb _); [cbn; congruence|].
  intros _. cbn [fst]. unfold Alsa.close_port.
  cbn [Alsa.connected_ Alsa.set_connected]. f_equal.
  destruct self1; cbn in *; subst; reflexivity.
Qed.

Lemma alsa_open_close_round_trip_witness :
  Alsa.close_port connected_out
  = (fst (Alsa.create_vport (sequencer [synth_port]) fresh_out "out"),
     [Native Alsa.snd_seq_unsubscribe_port;
      Native Alsa.snd_seq_port_subscribe_free]).
Proof.
  apply (alsa_open_close_round_trip (sequencer [synth_port]) fresh_out 0
           "out");
    reflexivity.
Defined.

(** * Further properties of the transmit path *)

Lemma firstn_app_skipn {A : Type} (a b : nat) (l : list A) :
  firstn a l ++ firstn b (skipn a l) = firstn (a + b) l.
Proof.
  revert l. induction a as [|a IH]; intros l.
  - reflexivity.
  - destruct l as [|x l]; cbn [firstn skipn Nat.add app].
    + rewrite firstn_nil. reflexivity.
    + f_equal. apply IH.
Qed.

Lemma send_loop_outcome s self message :
  Z.of_nat (List.length message) < 2 ^ 63 ->
  encoder_in_range s ->
  forall fuel offset e,
    0 <= offset ->
    Alsa.send_loop fuel s self message (Z.of_nat (List.length message)) offset
    = Some e ->
    (exists k,
        Alsa.transmitted e = firstn k (skipn (Z.to_nat offset) message))
    /\ ((forallb is_native e = true
         /\ Alsa.transmitted e = skipn (Z.to_nat offset) message
         /\ exists pre, e = pre ++ [Native Alsa.snd_seq_drain_output])
        \/ (exists pre r,
               e = pre ++ [r]
               /\ is_report r = true
               /\ forallb is_native pre = true
               /\ count_calls is_drain e = 0)).
Proof.
  intros Hsize Hrange.
  assert (Hdone : forall offset,
             (offset <? Z.of_nat (List.length message)) = false ->
             0 <= offset ->
             skipn (Z.to_nat offset) message = []).
  { intros offset Hge H0. apply Z.ltb_ge in Hge. apply skipn_all2. lia. }
  induction fuel as [|fuel IH]; intros offset e H0; cbn [Alsa.send_loop].
  - destruct (offset <? Z.of_nat (List.length message)) eqn:Elt;
      [discriminate|].
    intros H. injection H as <-. rewrite (Hdone offset Elt H0).
    split; [exists 0%nat; reflexivity|]. left.
    split; [reflexivity|]. split; [reflexivity|]. exists []. reflexivity.
  - destruct (offset <? Z.of_nat (List.length message)) eqn:Elt.
    2:{ intros H. injection H as <-. rewrite (Hdone offset Elt H0).
        split; [exists 0%nat; reflexivity|]. left.
        split; [reflexivity|]. split; [reflexivity|].
        exists []. reflexivity. }
    apply Z.ltb_lt in Elt.
    set (rest := skipn (Z.to_nat offset) message).
    match goal with
    | |- context [Alsa.encode_result s rest ?c] =>
        pose proof (Hrange rest c) as Hr;
          destruct (Alsa.encode_result s rest c) as [result type]
    end.
    cbn [fst] in Hr.
    destruct (result <? 0) eqn:Eneg.
    { intros H. injection H as <-.
      split; [exists 0%nat; reflexivity|]. right.
      exists [], (Warning "midi_out_alsa::send_message: event parsing error!").
      repeat split. }
    apply Z.ltb_ge in Eneg.
    destruct (type =? Alsa.SND_SEQ_EVENT_NONE).
    { intros H. injection H as <-.
      split; [exists 0%nat; reflexivity|]. right.
      exists [], (Warning "midi_out_alsa::send_message: incomplete message!").
      repeat split. }
    rewrite (to_uint64_small (offset + result)) by lia.
    destruct (Alsa.event_output_result s _ _ <? 0).
    { intros H. injection H as <-.
      cbn [Alsa.transmitted Alsa.ev_bytes]. rewrite app_nil_r.
      split; [exists (Z.to_nat result); reflexivity|]. right.
      eexists [_], _. split; [reflexivity|]. repeat split. }
    destruct (Alsa.send_loop fuel s self message _ (offset + result))
      as [e'|] eqn:El; [|discriminate].
    intros H. injection H as <-.
    destruct (IH (offset + result) e' ltac:(lia) El) as [[k Hk] Hcase].
    assert (Hskip : skipn (Z.to_nat (offset + result)) message
                    = skipn (Z.to_nat result) rest).
    { unfold rest. rewrite skipn_skipn. f_equal. lia. }
    rewrite Hskip in Hk, Hcase.
    cbn [Alsa.transmitted Alsa.ev_bytes]. split.
    + exists (Z.to_nat result + k)%nat. rewrite Hk.
      apply firstn_app_skipn.
    + destruct Hcase as [(Hn & Htx & pre & ->) | (pre & r & -> & Hr' & Hp & Hd)].
      * left. split; [exact Hn|]. split.
        -- rewrite Htx. apply firstn_skipn.
        -- eexists (_ :: pre). reflexivity.
      * right. eexists (_ :: pre), r. split; [reflexivity|].
        split; [exact Hr'|]. split; [exact Hp|]. exact Hd.
Qed.

(** X18.  What [send_message] can have done when it returns, for a message
    shorter than [2 ^ 63] bytes and an encoder whose return value is a
    [long].  The bytes handed to the sequencer are a prefix of the message,
    in order: no byte is sent twice or out of order.  Either the call
    reported nothing, queued the whole message and ended with the drain
    request; or it made exactly one report, as its last act, and did not
    drain the queue. *)
Theorem send_message_outcome fuel s self message self' e :
  Z.of_nat (List.length message) < 2 ^ 63 ->
  encoder_in_range s ->
  Alsa.send_message fuel s self message = Some (self', e) ->
  (exists k, Alsa.transmitted e = firstn k message)
  /\ ((forallb is_native e = true
       /\ Alsa.transmitted e = message
       /\ exists pre, e = pre ++ [Native Alsa.snd_seq_drain_output])
      \/ (exists pre r,
             e = pre ++ [r]
             /\ is_report r = true
             /\ forallb is_native pre = true
             /\ count_calls is_drain e = 0)).
Proof.
  intros Hsize Hrange. unfold Alsa.send_message, Alsa.resize_buffer.
  destruct (Z.of_nat (List.length message) >? Alsa.bufferSize self).
  - destruct (Alsa.resize_buffer_result s =? 0) eqn:E;
      cbn [negb Z.eqb]; rewrite ?E; cbn [negb].
    + destruct (Alsa.send_loop _ _ _ _ _ _) as [e'|] eqn:El;
        [|discriminate].
      intros H. injection H as _ <-.
      destruct (send_loop_outcome s _ message Hsize Hrange _ 0 e'
                  ltac:(lia) El) as [[k Hk] Hcase].
      cbn [Z.to_nat skipn] in Hk, Hcase. cbn [Alsa.transmitted].
      split; [exists k; exact Hk|].
      destruct Hcase as [(Hn & Htx & pre & ->)
                        | (pre & r & -> & Hr & Hp & Hd)].
      * left. split; [exact Hn|]. split; [exact Htx|].
        eexists (_ :: pre). reflexivity.
      * right. eexists (_ :: pre), r. split; [reflexivity|].
        split; [exact Hr|]. split; [exact Hp | exact Hd].
    + intros H. injection H as _ <-.
      split; [exists 0%nat; reflexivity|]. right.
      eexists [_], _. split; [reflexivity|]. repeat split.
  - destruct (Alsa.send_loop _ _ _ _ _ _) as [e'|] eqn:El; [|discriminate].
    intros H. injection H as _ <-.
    destruct (send_loop_outcome s _ message Hsize Hrange _ 0 e'
                ltac:(lia) El) as [[k Hk] Hcase].
    cbn [Z.to_nat skipn] in Hk, Hcase.
    split; [exists k; exact Hk | exact Hcase].
Qed.

Lemma chunking_sequencer_in_range : encoder_in_range chunking_sequencer.
Proof.
  intros buf count. cbn. destruct (count <=? 0); cbn; lia.
Qed.

Lemma chunking_sequencer_progress : encoder_progress chunking_sequencer.
Proof.
  intros buf count. cbn. destruct (count <=? 0) eqn:E; cbn.
  - intros _ H. exfalso. apply H. reflexivity.
  - apply Z.leb_gt in E. lia.
Qed.

Lemma send_message_outcome_witness :
  exists k, Alsa.transmitted three_chunks = firstn k [1; 2; 3; 4; 5; 6; 7].
Proof.
  apply (proj1 (send_message_outcome 7 chunking_sequencer fresh_out
                  [1; 2; 3; 4; 5; 6; 7] fresh_out three_chunks
                  ltac:(cbn; lia) chunking_sequencer_in_range eq_refl)).
Defined.

Lemma send_loop_returns s self message :
  Z.of_nat (List.length message) < 2 ^ 63 ->
  encoder_in_range s ->
  encoder_progress s ->
  forall fuel offset,
    0 <= offset ->
    Z.of_nat (List.length message) - offset <= Z.of_nat fuel ->
    exists e,
      Alsa.send_loop fuel s self message (Z.of_nat (List.length message))
        offset = Some e.
Proof.
  intros Hsize Hrange Hprog.
  induction fuel as [|fuel IH]; intros offset H0 Hfuel;
    cbn [Alsa.send_loop].
  - replace (offset <? Z.of_nat (List.length message)) with false
      by (symmetry; apply Z.ltb_ge; lia).
    eexists. reflexivity.
  - destruct (offset <? Z.of_nat (List.length message)) eqn:Elt;
      [|eexists; reflexivity].
    apply Z.ltb_lt in Elt.
    match goal with
    | |- context [Alsa.encode_result s ?b ?c] =>
        pose proof (Hrange b c) as Hr; pose proof (Hprog b c) as Hp;
          destruct (Alsa.encode_result s b c) as [result type]
    end.
    cbn [fst snd] in Hr, Hp.
    destruct (result <? 0) eqn:Eneg; [eexists; reflexivity|].
    apply Z.ltb_ge in Eneg.
    destruct (type =? Alsa.SND_SEQ_EVENT_NONE) eqn:Ety;
      [eexists; reflexivity|].
    apply Z.eqb_neq in Ety. specialize (Hp Eneg Ety).
    rewrite (to_uint64_small (offset + result)) by lia.
    destruct (Alsa.event_output_result s _ _ <? 0); [eexists; reflexivity|].
    destruct (IH (offset + result)) as [e' He']; [lia | lia |].
    rewrite He'. eexists. reflexivity.
Qed.

(** X19.  [send_message] returns.  For a message shorter than [2 ^ 63]
    bytes, if every event the encoder produces stands for at least one byte
    (and its return value is a [long]), the send loop ends after at most as
    many iterations as the message has bytes, whatever fails on the way. *)
Theorem send_message_returns s self message :
  Z.of_nat (List.length message) < 2 ^ 63 ->
  encoder_in_range s ->
  encoder_progress s ->
  exists self' e,
    Alsa.send_message (List.length message) s self message = Some (self', e).
Proof.
  intros Hsize Hrange Hprog. unfold Alsa.send_message, Alsa.resize_buffer.
  destruct (Z.of_nat (List.length message) >? Alsa.bufferSize self).
  - destruct (Alsa.resize_buffer_result s =? 0) eqn:E;
      cbn [negb Z.eqb]; rewrite ?E; cbn [negb].
    + match goal with
      | |- context [Alsa.send_loop _ s ?self2 message _ 0] =>
          destruct (send_loop_returns s self2 message Hsize Hrange Hprog
                      (List.length message) 0 ltac:(lia) ltac:(lia))
            as [e He]
      end.
      rewrite He. do 2 eexists. reflexivity.
    + do 2 eexists. reflexivity.
  - destruct (send_loop_returns s self message Hsize Hrange Hprog
                (List.length message) 0 ltac:(lia) ltac:(lia)) as [e He].
    rewrite He. do 2 eexists. reflexivity.
Qed.

Lemma send_message_returns_witness :
  exists self' e,
    Alsa.send_message 7 chunking_sequencer fresh_out [1; 2; 3; 4; 5; 6; 7]
    = Some (self', e).
Proof.
  apply (send_message_returns chunking_sequencer fresh_out
           [1; 2; 3; 4; 5; 6; 7] ltac:(cbn; lia)
           chunking_sequencer_in_range chunking_sequencer_progress).
Defined.

(** X20.  A message that fits the recorded capacity needs no resize: a
    [send_message] that returns has left the driver exactly as it was and
    has not called [snd_midi_event_resize_buffer].  The empty message is
    the extreme case: nothing is encoded or queued, the call only asks the
    sequencer to drain its queue, and it needs no loop iteration at all. *)
Theorem send_message_within_capacity fuel s self message :
  Z.of_nat (List.length message) <= Alsa.bufferSize self ->
  (forall self' e,
      Alsa.send_message fuel s self message = Some (self', e) ->
      self' = self /\ count_calls is_resize e = 0)
  /\ (message = [] ->
      Alsa.send_message fuel s self message
      = Some (self, [Native Alsa.snd_seq_drain_output])).
Proof.
  intros Hfit.
  assert (Hle : (Z.of_nat (List.length message) >? Alsa.bufferSize self)
                = false).
  { rewrite Z.gtb_ltb. apply Z.ltb_ge. exact Hfit. }
  split.
  - intros self' e. unfold Alsa.send_message. rewrite Hle.
    destruct (Alsa.send_loop _ _ _ _ _ _) as [e'|] eqn:El; [|discriminate].
    intros H. injection H as <- <-. split; [reflexivity|].
    apply count_calls_loop; [reflexivity | reflexivity |].
    eapply send_loop_effects. exact El.
  - intros ->. unfold Alsa.send_message. rewrite Hle.
    destruct fuel; reflexivity.
Qed.

Lemma send_message_within_capacity_witness :
  Alsa.send_message 0 (sequencer []) fresh_out []
  = Some (fresh_out, [Native Alsa.snd_seq_drain_output]).
Proof.
  apply (proj2 (send_message_within_capacity 0 (sequencer []) fresh_out []
                  ltac:(cbn; lia))).
  reflexivity.
Defined.

Lemma send_loop_needs_vport_only s self1 self2 message size :
  Alsa.vport self1 = Alsa.vport self2 ->
  forall fuel offset,
    Alsa.send_loop fuel s self1 message size offset
    = Alsa.send_loop fuel s self2 message size offset.
Proof.
  intros Hv. induction fuel as [|fuel IH]; intros offset;
    cbn [Alsa.send_loop].
  - reflexivity.
  - rewrite Hv.
    destruct (offset <? size); [|reflexivity].
    destruct (Alsa.encode_result s _ _) as [result type].
    destruct (result <? 0); [reflexivity|].
    destruct (type =? Alsa.SND_SEQ_EVENT_NONE); [reflexivity|].
    destruct (Alsa.event_output_result s _ _ <? 0); [reflexivity|].
    rewrite IH. reflexivity.
Qed.

(** X21.  [send_message] does not look at the connection.  Whether the
    driver is connected or not, and whatever its subscription, the call
    encodes and queues the same events and makes the same reports; and it
    leaves [connected_], [subscription] and [vport] as they were.  A
    message sent on a driver that was never connected is queued all the
    same, with source port [vport mod 256]. *)
Theorem send_message_ignores_connection fuel s self message b sub :
  Alsa.send_message fuel s
    (Alsa.set_subscription (Alsa.set_connected self b) sub) message
  = match Alsa.send_message fuel s self message with
    | Some (self', e) =>
        Some (Alsa.set_subscription (Alsa.set_connected self' b) sub, e)
    | None => None
    end.
Proof.
  unfold Alsa.send_message, Alsa.resize_buffer.
  cbn [Alsa.bufferSize Alsa.set_subscription Alsa.set_connected Alsa.coder
       Alsa.set_bufferSize].
  destruct (Z.of_nat (List.length message) >? Alsa.bufferSize self).
  - destruct (Alsa.resize_buffer_result s =? 0) eqn:E;
      cbn [negb Z.eqb]; rewrite ?E; cbn [negb]; [|reflexivity].
    set (c := match Alsa.coder self with
              | Some _ =>
                  Some {| Alsa.bufsize := Z.of_nat (List.length message) |}
              | None => None
              end).
    set (n := to_uint (Z.of_nat (List.length message))).
    rewrite (send_loop_needs_vport_only s
               (Alsa.set_coder
                  (Alsa.set_bufferSize
                     (Alsa.set_subscription (Alsa.set_connected self b) sub)
                     n) c)
               (Alsa.set_coder (Alsa.set_bufferSize self n) c)
               message _ eq_refl fuel 0).
    destruct (Alsa.send_loop _ _ _ _ _ _); reflexivity.
  - rewrite (send_loop_needs_vport_only s
               (Alsa.set_subscription (Alsa.set_connected self b) sub)
               self message _ eq_refl fuel 0).
    destruct (Alsa.send_loop _ _ _ _ _ _); reflexivity.
Qed.

(** X22.  [open_virtual_port] on the output driver creates the local port
    and nothing else.  On a driver without a local port it calls
    [snd_seq_create_simple_port] once, with the name given and the read
    capabilities, and stores the identifier returned; a negative identifier
    is followed by the driver error and leaves the driver without a port,
    so that the next call tries again.  On a driver that has a local port
    it does nothing at all.  In no case does it touch [connected_], the
    subscription, the encoder or the capacity.  A later [open_port] that
    succeeds creates no port of its own: it subscribes from the port that
    [open_virtual_port] created, whatever name it is given. *)
Theorem alsa_open_virtual_port_outcome s self portName :
  (Alsa.vport self < 0 ->
   0 <= to_int (Alsa.create_simple_port_result s) ->
   Alsa.open_virtual_port s self portName
   = (Alsa.set_vport self (to_int (Alsa.create_simple_port_result s)),
      [Native (Alsa.snd_seq_create_simple_port portName Alsa.READ_CAPS
                 (Z.lor Alsa.SND_SEQ_PORT_TYPE_MIDI_GENERIC
                        Alsa.SND_SEQ_PORT_TYPE_APPLICATION))]))
  /\ (Alsa.vport self < 0 ->
      to_int (Alsa.create_simple_port_result s) < 0 ->
      Alsa.open_virtual_port s self portName
      = (Alsa.set_vport self (to_int (Alsa.create_simple_port_result s)),
         [Native (Alsa.snd_seq_create_simple_port portName Alsa.READ_CAPS
                    (Z.lor Alsa.SND_SEQ_PORT_TYPE_MIDI_GENERIC
                           Alsa.SND_SEQ_PORT_TYPE_APPLICATION));
          Error driver_error
            "midi_out_alsa::open_virtual_port: ALSA error creating virtual port."]))
  /\ (0 <= Alsa.vport self ->
      Alsa.open_virtual_port s self portName = (self, []))
  /\ (forall s' portNumber portName' pinfo,
         Alsa.vport self < 0 ->
         0 <= to_int (Alsa.create_simple_port_result s) ->
         Alsa.connected_ self = false ->
         1 <= Alsa.get_port_count s' ->
         Alsa.port_info s' Alsa.WRITE_CAPS (to_int portNumber) = Some pinfo ->
         0 <= Alsa.port_subscribe_malloc_result s' ->
         Alsa.subscribe_port_result s' = 0 ->
         Alsa.open_port s'
           (fst (Alsa.open_virtual_port s self portName))
           portNumber portName'
         = (Alsa.set_connected
              (Alsa.set_subscription
                 (Alsa.set_vport self
                    (to_int (Alsa.create_simple_port_result s)))
                 (Alsa.sub_alloc
                    (sender_of s'
                       (to_int (Alsa.create_simple_port_result s)))
                    (receiver_of pinfo)))
              true,
            [Native Alsa.snd_seq_port_subscribe_malloc;
             Native (Alsa.snd_seq_subscribe_port
                       (sender_of s'
                          (to_int (Alsa.create_simple_port_result s)))
                       (receiver_of pinfo))])).
Proof.
  assert (Hreuse : forall s' portNumber portName' pinfo,
             Alsa.vport self < 0 ->
             0 <= to_int (Alsa.create_simple_port_result s) ->
             Alsa.connected_ self = false ->
             1 <= Alsa.get_port_count s' ->
             Alsa.port_info s' Alsa.WRITE_CAPS (to_int portNumber)
             = Some pinfo ->
             0 <= Alsa.port_subscribe_malloc_result s' ->
             Alsa.subscribe_port_result s' = 0 ->
             Alsa.open_port s'
               (fst (Alsa.open_virtual_port s self portName))
               portNumber portName'
             = (Alsa.set_connected
                  (Alsa.set_subscription
                     (Alsa.set_vport self
                        (to_int (Alsa.create_simple_port_result s)))
                     (Alsa.sub_alloc
                        (sender_of s'
                           (to_int (Alsa.create_simple_port_result s)))
                        (receiver_of pinfo)))
                  true,
                [Native Alsa.snd_seq_port_subscribe_malloc;
                 Native (Alsa.snd_seq_subscribe_port
                           (sender_of s'
                              (to_int (Alsa.create_simple_port_result s)))
                           (receiver_of pinfo))])).
  { intros s' n name' pinfo Hv Hr Hc Hn Hi Hm Hs.
    assert (Hovp : fst (Alsa.open_virtual_port s self portName)
                   = Alsa.set_vport self
                       (to_int (Alsa.create_simple_port_result s))).
    { unfold Alsa.open_virtual_port, Alsa.create_vport.
      replace (Alsa.vport self <? 0) with true
        by (symmetry; apply Z.ltb_lt; exact Hv).
      cbn [Alsa.vport Alsa.set_vport andb].
      destruct (to_int (Alsa.create_simple_port_result s) <? 0);
        reflexivity. }
    rewrite Hovp.
    assert (Hcv : Alsa.create_vport s'
                    (Alsa.set_vport self
                       (to_int (Alsa.create_simple_port_result s))) name'
                  = (Alsa.set_vport self
                       (to_int (Alsa.create_simple_port_result s)), [])).
    { unfold Alsa.create_vport. cbn [Alsa.vport Alsa.set_vport].
      replace (to_int (Alsa.create_simple_port_result s) <? 0) with false
        by (symmetry; apply Z.ltb_ge; exact Hr).
      reflexivity. }
    rewrite (open_port_succeeds s' _ n name' pinfo); rewrite ?Hcv;
      cbn [fst snd Alsa.vport Alsa.set_vport Alsa.connected_ app];
      try assumption.
    reflexivity. }
  unfold Alsa.open_virtual_port, Alsa.create_vport.
  split; [|split; [|split; [|exact Hreuse]]].
  - intros Hv Hr.
    replace (Alsa.vport self <? 0) with true
      by (symmetry; apply Z.ltb_lt; exact Hv).
    cbn [Alsa.vport Alsa.set_vport andb].
    replace (to_int (Alsa.create_simple_port_result s) <? 0) with false
      by (symmetry; apply Z.ltb_ge; exact Hr).
    reflexivity.
  - intros Hv Hr.
    replace (Alsa.vport self <? 0) with true
      by (symmetry; apply Z.ltb_lt; exact Hv).
    cbn [Alsa.vport Alsa.set_vport andb].
    replace (to_int (Alsa.create_simple_port_result s) <? 0) with true
      by (symmetry; apply Z.ltb_lt; exact Hr).
    reflexivity.
  - intros Hv.
    replace (Alsa.vport self <? 0) with false
      by (symmetry; apply Z.ltb_ge; exact Hv).
    reflexivity.
Qed.

Lemma alsa_open_virtual_port_outcome_witness :
  Alsa.open_virtual_port sequencer_port_300 fresh_out "out"
  = (Alsa.set_vport fresh_out 300,
     [Native (Alsa.snd_seq_create_simple_port "out" 33 1048578)]).
Proof.
  apply (proj1 (alsa_open_virtual_port_outcome sequencer_port_300 fresh_out
                  "out")).
  - vm_compute. reflexivity.
  - vm_compute. discriminate.
Defined.
